(** * utllo: PDF text reconstruction and Word document assembly

    A shallow embedding of the PDF to Word converter in
    [src/lib/countdown.ts] ([extractPageText], [convertPdfToWord]) and of
    [validatePdfFile] from [src/lib/pdf-converter.ts], with the properties
    the specification states about them; then of the countdown utilities
    of [src/lib/countdown.ts] and of [getFileBaseName], [createImagesZip],
    [convertPdfToImages] and [loadPdfJs] from [src/lib/pdf-converter.ts],
    with further properties read off the code.

    Conventions of the embedding.
    - A JavaScript string is the list of its UTF-16 code units.
    - A JavaScript [number] holding a page coordinate is an exact rational:
      rounding, NaN and infinities of IEEE doubles are outside the model.
      Counts, indices and lengths are [nat]; a file size is [N].
    - A promise that may reject is an [option]; the calls the orchestrator
      makes to the outside (progress callback, page requests) are recorded
      in a trace, in program order. *)

From Stdlib Require Import List Bool Arith Lia ZArith NArith.
From Stdlib Require Import QArith Qabs Lqa.
From Stdlib Require Import Sorted Permutation.
From Stdlib Require Import Ascii.
From Stdlib Require String DecimalString DecimalFacts DecimalNat.
Import ListNotations String.StringSyntax.

Set Implicit Arguments.
Local Open Scope string_scope.
Local Open Scope list_scope.

(** ** JavaScript strings *)

Module JsString.

Definition jsstring := list N.

(** An ASCII literal as a JavaScript string. *)
Definition js (s : String.string) : jsstring :=
  map N_of_ascii (String.list_ascii_of_string s).

(** ECMAScript [WhiteSpace] and [LineTerminator] code units, the ones
    [String.prototype.trim] strips. *)
Definition isWhiteSpace (c : N) : bool :=
  ((c =? 0x09) || (c =? 0x0A) || (c =? 0x0B) || (c =? 0x0C) || (c =? 0x0D)
   || (c =? 0x20) || (c =? 0xA0) || (c =? 0x1680)
   || ((0x2000 <=? c) && (c <=? 0x200A))
   || (c =? 0x2028) || (c =? 0x2029) || (c =? 0x202F) || (c =? 0x205F)
   || (c =? 0x3000) || (c =? 0xFEFF))%N.

Fixpoint trimStart (s : jsstring) : jsstring :=
  match s with
  | [] => []
  | c :: r => if isWhiteSpace c then trimStart r else s
  end.

Definition trimEnd (s : jsstring) : jsstring := rev (trimStart (rev s)).

Definition trim (s : jsstring) : jsstring := trimEnd (trimStart s).

(** [Array.prototype.join] on an array of strings. *)
Fixpoint join (sep : jsstring) (l : list jsstring) : jsstring :=
  match l with
  | [] => []
  | [a] => a
  | a :: r => a ++ sep ++ join sep r
  end.

Fixpoint startsWith (s p : jsstring) : bool :=
  match p, s with
  | [], _ => true
  | _ :: _, [] => false
  | a :: p', b :: s' => (a =? b)%N && startsWith s' p'
  end.

Definition endsWith (s p : jsstring) : bool := startsWith (rev s) (rev p).

Fixpoint includes (s p : jsstring) : bool :=
  startsWith s p ||
  match s with
  | [] => false
  | _ :: s' => includes s' p
  end.

(** [String(n)] for a non-negative integer. *)
Definition ofNat (n : nat) : jsstring :=
  js (DecimalString.NilEmpty.string_of_uint (Nat.to_uint n)).

(** Truthiness of a string: only the empty string is falsy. *)
Definition truthy (s : jsstring) : bool :=
  match s with [] => false | _ :: _ => true end.

End JsString.

Import JsString.

(** ** Numbers and sorting *)

Definition Qltb (a b : Q) : bool := negb (Qle_bool b a).

Section Sort.
Variable A : Type.
(** The comparator of [Array.prototype.sort]: negative when the first
    argument goes first. *)
Variable compareFn : A -> A -> Q.

Fixpoint insertSorted (a : A) (l : list A) : list A :=
  match l with
  | [] => [a]
  | b :: l' =>
      if Qle_bool (compareFn a b) 0 then a :: l else b :: insertSorted a l'
  end.

(** [Array.prototype.sort] is stable: of two elements the comparator does
    not separate, the one that came first stays first. *)
Definition sort (l : list A) : list A := fold_right insertSorted [] l.
End Sort.

(** ** PDF.js interfaces *)

(** [transform: number[]], laid out as the interface documents it:
    [scaleX, skewX, skewY, scaleY, translateX, translateY]; index 4 is
    [translateX], index 5 is [translateY]. *)
Record Transform := {
  scaleX : Q; skewX : Q; skewY : Q; scaleY : Q;
  translateX : Q; translateY : Q
}.

Record PDFTextItem := {
  str : jsstring;
  transform : Transform;
  hasEOL : option bool   (* [hasEOL?: boolean] *)
}.

Record PDFTextContent := { items : list PDFTextItem }.

Record Viewport := { height : Q }.

Record PDFPageProxy := {
  getTextContent : option PDFTextContent;   (* [None]: the promise rejects *)
  getViewport : Q -> Viewport               (* argument: [scale] *)
}.

Record PDFDocumentProxy := {
  numPages : nat;
  getPage : nat -> option PDFPageProxy      (* [None]: the promise rejects *)
}.

Inductive Stage := extracting | generating.

Record ConversionProgress := {
  currentPage : nat;
  totalPages : nat;
  stage : Stage
}.

(** ** extractPageText *)

Record LineItem := { x : Q; text : jsstring }.

Record TextLine := { y : Q; line_items : list LineItem }.

Record Positioned := {
  p_text : jsstring;
  p_x : Q;
  p_y : Q;
  p_hasEOL : bool
}.

(** [item.hasEOL] used as a condition, and [item.hasEOL || false]. *)
Definition flag (b : option bool) : bool :=
  match b with Some true => true | _ => false end.

Definition keepItem (item : PDFTextItem) : bool :=
  (0 <? length (trim (str item)))%nat || flag (hasEOL item).

Definition toPositioned (pageHeight : Q) (item : PDFTextItem) : Positioned :=
  {| p_text := str item;
     p_x := translateX (transform item);
     p_y := pageHeight - translateY (transform item);
     p_hasEOL := flag (hasEOL item) |}.

Definition positionedItems (pageHeight : Q) (its : list PDFTextItem)
  : list Positioned :=
  map (toPositioned pageHeight) (filter keepItem its).

Definition LINE_THRESHOLD : Q := 3.
Definition PARAGRAPH_GAP : Q := 10.

Definition lineItemOf (item : Positioned) : LineItem :=
  {| x := p_x item; text := p_text item |}.

(** The inner [for (const line of lines)] with its [break]: [Some] is the
    array after the push into the first line that matches ([foundLine]),
    [None] when the scan ends without a match. *)
Fixpoint pushToLine (lines : list TextLine) (item : Positioned)
  : option (list TextLine) :=
  match lines with
  | [] => None
  | line :: rest =>
      if Qltb (Qabs (y line - p_y item)) LINE_THRESHOLD
      then Some ({| y := y line;
                    line_items := line_items line ++ [lineItemOf item] |}
                 :: rest)
      else option_map (cons line) (pushToLine rest item)
  end.

(** One iteration of [for (const item of positioned)]. *)
Definition addItem (lines : list TextLine) (item : Positioned)
  : list TextLine :=
  match pushToLine lines item with
  | Some lines' => lines'
  | None => lines ++ [{| y := p_y item; line_items := [lineItemOf item] |}]
  end.

Definition groupLines (positioned : list Positioned) : list TextLine :=
  fold_left addItem positioned [].

Definition sortLineItems (line : TextLine) : TextLine :=
  {| y := y line;
     line_items := sort (fun a b => x a - x b) (line_items line) |}.

(** [lines] after both sorts. *)
Definition sortedLines (lines : list TextLine) : list TextLine :=
  map sortLineItems (sort (fun a b => y a - y b) lines).

Definition lineText (line : TextLine) : jsstring :=
  trim (join (js " ") (map text (line_items line))).

Definition lineTextsOf (lines : list TextLine) : list jsstring :=
  filter (fun t => (0 <? length t)%nat) (map lineText lines).

(** The loop [for (let i = 1; i < lines.length; i++)]. [prev] is
    [lines[i - 1]] and the head of [rest] is [lines[i]]; [lineTexts] is
    indexed by [i] as in the source. *)
Fixpoint paragraphLoop (lineTexts : list jsstring) (i : nat)
    (prev : TextLine) (rest : list TextLine)
    (paragraphs : list jsstring) (currentParagraph : jsstring)
  : list jsstring * jsstring :=
  match rest with
  | [] => (paragraphs, currentParagraph)
  | line :: rest' =>
      match nth_error lineTexts i with
      | Some (c :: s) =>
          let lineText := c :: s in
          let gap := y line - y prev in
          if Qltb PARAGRAPH_GAP gap
          then paragraphLoop lineTexts (S i) line rest'
                 (paragraphs ++ [currentParagraph]) lineText
          else paragraphLoop lineTexts (S i) line rest'
                 paragraphs (currentParagraph ++ js " " ++ lineText)
      | _ => (* [if (!lineText) continue] *)
          paragraphLoop lineTexts (S i) line rest' paragraphs currentParagraph
      end
  end.

(** Lines 306-333: from the sorted [lines] and the filtered [lineTexts] to
    the paragraphs. *)
Definition formParagraphs (lines : list TextLine) (lineTexts : list jsstring)
  : list jsstring :=
  match lineTexts with
  | [] => []
  | first :: _ =>
      let '(paragraphs, currentParagraph) :=
        match lines with
        | [] => ([], first)
        | l0 :: rest => paragraphLoop lineTexts 1 l0 rest [] first
        end in
      if truthy currentParagraph
      then paragraphs ++ [currentParagraph]
      else paragraphs
  end.

(** The body of [extractPageText] once [getTextContent] has resolved. *)
Definition pageParagraphs (pageHeight : Q) (its : list PDFTextItem)
  : list jsstring :=
  match its with
  | [] => []
  | _ :: _ =>
      let positioned := positionedItems pageHeight its in
      match positioned with
      | [] => []
      | _ :: _ =>
          let lines := sortedLines (groupLines positioned) in
          formParagraphs lines (lineTextsOf lines)
      end
  end.

Definition extractPageText (page : PDFPageProxy) : option (list jsstring) :=
  match getTextContent page with
  | None => None
  | Some textContent =>
      let viewport := getViewport page 1 in
      let pageHeight := height viewport in
      Some (pageParagraphs pageHeight (items textContent))
  end.

(** A text item [s] placed at ([tx], [ty]) in PDF coordinates. *)
Definition mkItem (s : String.string) (tx ty : Q) (eol : option bool)
  : PDFTextItem :=
  {| str := js s;
     transform := {| scaleX := 1; skewX := 0; skewY := 0; scaleY := 1;
                     translateX := tx; translateY := ty |};
     hasEOL := eol |}.

(** A page of height [h] at scale 1 whose text content is [its]. *)
Definition mkPage (h : Q) (its : list PDFTextItem) : PDFPageProxy :=
  {| getTextContent := Some {| items := its |};
     getViewport := fun scale => {| height := scale * h |} |}.

(** ** convertPdfToWord *)

(** What the orchestrator does to the outside, in program order: a call of
    the progress callback, a page request to the PDF backend. *)
Inductive Event :=
| ProgressCall (progress : ConversionProgress)
| GetPageCall (pageNumber : nat).

(** An asynchronous computation: the calls made so far and, unless a
    promise rejected on the way, a result. *)
Definition Run (A : Type) : Type := (list Event * option A)%type.

Definition ret {A} (a : A) : Run A := ([], Some a).

Definition bind {A B} (c : Run A) (k : A -> Run B) : Run B :=
  match c with
  | (t, None) => (t, None)
  | (t, Some a) => let '(t', r) := k a in (t ++ t', r)
  end.

Definition emit (e : Event) : Run unit := ([e], Some tt).

Definition await {A} (promise : option A) : Run A := ([], promise).

Notation "x <- c ;; k" := (bind c (fun x => k))
  (at level 61, c at next level, right associativity).
Notation "c ;;; k" := (bind c (fun _ => k))
  (at level 61, right associativity).

(** [onProgress?.(progress)]; [onProgress] tells whether the optional
    callback was supplied. *)
Definition callOnProgress (onProgress : bool) (progress : ConversionProgress)
  : Run unit :=
  if onProgress then emit (ProgressCall progress) else ret tt.

(** The objects of the [docx] package, as the options they are built from. *)
Record TextRun := {
  run_text : jsstring;
  italics : option bool;
  color : option jsstring
}.

Inductive ParagraphChild :=
| TextRunChild (r : TextRun)
| PageBreak.

Record Spacing := { after : nat }.

Record Paragraph := {
  children : list ParagraphChild;
  spacing : option Spacing
}.

Record DocSection := { section_children : list Paragraph }.

Record Document := { sections : list DocSection }.

(** The loop [for (let i = 1; i <= totalPages; i++)]; [remaining] counts the
    iterations still to run, [totalPages + 1 - i]. *)
Fixpoint extractLoop (pdf : PDFDocumentProxy) (onProgress : bool)
    (i remaining : nat) (allPageTexts : list (list jsstring))
  : Run (list (list jsstring)) :=
  match remaining with
  | O => ret allPageTexts
  | S remaining' =>
      callOnProgress onProgress
        {| currentPage := i; totalPages := numPages pdf;
           stage := extracting |} ;;;
      page <- (emit (GetPageCall i) ;;; await (getPage pdf i)) ;;
      paragraphs <- await (extractPageText page) ;;
      extractLoop pdf onProgress (S i) remaining'
        (allPageTexts ++ [paragraphs])
  end.

Definition emptyPageNote (pageIdx : nat) : Paragraph :=
  {| children :=
       [TextRunChild
          {| run_text := js "[Strona " ++ ofNat (pageIdx + 1)
                         ++ js " - brak tekstu]";
             italics := Some true;
             color := Some (js "999999") |}];
     spacing := None |}.

Definition textParagraph (text : jsstring) : Paragraph :=
  {| children :=
       [TextRunChild {| run_text := text; italics := None; color := None |}];
     spacing := Some {| after := 120 |} |}.

Definition pageBreakParagraph : Paragraph :=
  {| children := [PageBreak]; spacing := None |}.

(** The loop [for (let pageIdx = 0; pageIdx < allPageTexts.length;
    pageIdx++)]: [len] is [allPageTexts.length], [pages] are the entries
    from [pageIdx] on, [acc] is [children] so far. *)
Fixpoint assembleLoop (len pageIdx : nat) (pages : list (list jsstring))
    (acc : list Paragraph) : list Paragraph :=
  match pages with
  | [] => acc
  | pageParagraphs :: pages' =>
      let acc1 :=
        match pageParagraphs with
        | [] => acc ++ [emptyPageNote pageIdx]
        | _ :: _ =>
            fold_left (fun c text => c ++ [textParagraph text])
                      pageParagraphs acc
        end in
      let acc2 :=
        if (pageIdx <? len - 1)%nat then acc1 ++ [pageBreakParagraph]
        else acc1 in
      assembleLoop len (S pageIdx) pages' acc2
  end.

Definition assemble (allPageTexts : list (list jsstring)) : list Paragraph :=
  assembleLoop (length allPageTexts) 0 allPageTexts [].

(** [convertPdfToWord] from the opened document on; the result is the
    [Document] handed to [Packer.toBlob]. *)
Definition convertPdfToWord (pdf : PDFDocumentProxy) (onProgress : bool)
  : Run Document :=
  let totalPages := numPages pdf in
  allPageTexts <- extractLoop pdf onProgress 1 totalPages [] ;;
  callOnProgress onProgress
    {| currentPage := totalPages; totalPages := totalPages;
       stage := generating |} ;;;
  ret {| sections := [{| section_children := assemble allPageTexts |}] |}.

(** A document whose pages are the given ones, numbered from 1. *)
Definition mkPdf (pages : list PDFPageProxy) : PDFDocumentProxy :=
  {| numPages := length pages;
     getPage := fun n => match n with
                         | O => None
                         | S k => nth_error pages k
                         end |}.

(** ** validatePdfFile *)

Record File := { name : jsstring; type : jsstring; size : N }.

Record ValidationResult := { valid : bool; error : option jsstring }.

(** [String.prototype.toLowerCase] restricted to the letters A-Z; other
    code units are kept. *)
Definition asciiToLowerCase (s : jsstring) : jsstring :=
  map (fun c => if (0x41 <=? c)%N && (c <=? 0x5A)%N then (c + 0x20)%N else c) s.

Section Validate.
(** [String.prototype.toLowerCase]. The Unicode case mapping belongs to
    the engine; the validation is stated for any such function. *)
Variable toLowerCase : jsstring -> jsstring.

Definition maxSize : N := 50 * 1024 * 1024.

Definition typeError : jsstring :=
  js "Plik musi by" ++ [0x107%N] ++ js " w formacie PDF".

Definition sizeError : jsstring :=
  js "Plik jest za du" ++ [0x17C%N] ++ js "y (max 50 MB)".

Definition validatePdfFile (file : File) : ValidationResult :=
  if negb (includes (type file) (js "pdf"))
     && negb (endsWith (toLowerCase (name file)) (js ".pdf"))
  then {| valid := false; error := Some typeError |}
  else if (maxSize <? size file)%N
  then {| valid := false; error := Some sizeError |}
  else {| valid := true; error := None |}.
End Validate.

(** ** Notions used to state the properties *)


(** The line after the run has joined it. *)
Definition joined (line : TextLine) (item : Positioned) : TextLine :=
  {| y := y line; line_items := line_items line ++ [lineItemOf item] |}.

(** The sorted line keeps the representative and the runs of the cluster. *)
Definition sameContent (line cluster : TextLine) : Prop :=
  y line = y cluster
  /\ Permutation (line_items line) (line_items cluster).

Definition runC : LineItem := {| x := 30; text := js "c" |}.
Definition runA : LineItem := {| x := 10; text := js "a" |}.
Definition runB : LineItem := {| x := 20; text := js "b" |}.

(** Paragraph formation in the specification's words, over lines given as
    (representative Y, text): a line whose gap to the line before it
    exceeds 10 closes the paragraph and starts the next, any other line is
    appended after a space. *)
Fixpoint splitParagraphs (prevY : Q) (current : jsstring)
    (rest : list (Q * jsstring)) : list jsstring :=
  match rest with
  | [] => [current]
  | (lineY, lineText) :: rest' =>
      if Qlt_le_dec 10 (lineY - prevY)
      then current :: splitParagraphs lineY lineText rest'
      else splitParagraphs lineY (current ++ js " " ++ lineText) rest'
  end.

Definition paragraphsByGap (lines : list (Q * jsstring)) : list jsstring :=
  match lines with
  | [] => []
  | (firstY, firstText) :: rest => splitParagraphs firstY firstText rest
  end.

Definition positionedText (line : TextLine) : Q * jsstring :=
  (y line, lineText line).

(** The same with the lines of empty text left out beforehand, so that
    every gap is taken between two lines that have text. *)
Definition paragraphsSkippingEmpty (lines : list TextLine) : list jsstring :=
  paragraphsByGap
    (filter (fun l => truthy (snd l)) (map positionedText lines)).

Definition pageLines (pageHeight : Q) (its : list PDFTextItem)
  : list TextLine :=
  sortedLines (groupLines (positionedItems pageHeight its)).

Definition extractingProgress (pdf : PDFDocumentProxy) (i : nat)
  : ConversionProgress :=
  {| currentPage := i; totalPages := numPages pdf; stage := extracting |}.

Definition generatingProgress (pdf : PDFDocumentProxy) : ConversionProgress :=
  {| currentPage := numPages pdf; totalPages := numPages pdf;
     stage := generating |}.

(** The progress calls of a trace, in order. *)
Definition progressCalls (trace : list Event) : list ConversionProgress :=
  flat_map (fun e => match e with
                     | ProgressCall p => [p]
                     | GetPageCall _ => []
                     end) trace.

(** [f] applied to every element with its index, counting from [i]. *)
Fixpoint mapFrom {A B} (f : nat -> A -> B) (i : nat) (l : list A) : list B :=
  match l with
  | [] => []
  | a :: l' => f i a :: mapFrom f (S i) l'
  end.

(** The groups one after the other, with [sep] between two neighbours and
    nothing after the last. *)
Fixpoint intercalate {A} (sep : list A) (groups : list (list A)) : list A :=
  match groups with
  | [] => []
  | g :: rest =>
      match rest with
      | [] => g
      | _ :: _ => g ++ sep ++ intercalate sep rest
      end
  end.

(** The blocks of one page in the specification's words: the placeholder
    for a page without paragraphs, one text block per paragraph otherwise. *)
Definition placeholder (pageNumber : nat) : Paragraph :=
  {| children :=
       [TextRunChild
          {| run_text := js "[Strona " ++ ofNat pageNumber
                         ++ js " - brak tekstu]";
             italics := Some true;
             color := Some (js "999999") |}];
     spacing := None |}.

Definition blocksOfPage (pageIdx : nat) (paragraphs : list jsstring)
  : list Paragraph :=
  match paragraphs with
  | [] => [placeholder (pageIdx + 1)]
  | _ :: _ => map textParagraph paragraphs
  end.

Definition isPageBreak (p : Paragraph) : bool :=
  existsb (fun c => match c with
                    | PageBreak => true
                    | TextRunChild _ => false
                    end)
          (children p).

Definition countPageBreaks (blocks : list Paragraph) : nat :=
  length (filter isPageBreak blocks).

Definition twoPages : PDFDocumentProxy :=
  mkPdf [mkPage 100 [mkItem "Hello" 0 90 None; mkItem "world" 40 90 None];
         mkPage 100 []].

(** ** Countdown utilities *)

(** A [Date] is its time value, the milliseconds since the epoch; [now]
    stands for [new Date()]. Invalid dates are outside the model. *)

Record TimeRemaining := {
  days : Z;
  hours : Z;
  minutes : Z;
  seconds : Z;
  totalSeconds : Z;
  isPast : bool
}.

(** [Math.floor(a / b)] on integers is [Z.div], [a % b] is [Z.rem]. *)
Definition getTimeRemaining (targetDate now : Z) : TimeRemaining :=
  let diff := (targetDate - now)%Z in
  let isPast := (diff <? 0)%Z in
  let absDiff := Z.abs diff in
  let totalSeconds := (absDiff / 1000)%Z in
  let days := (totalSeconds / (60 * 60 * 24))%Z in
  let hours := (Z.rem totalSeconds (60 * 60 * 24) / (60 * 60))%Z in
  let minutes := (Z.rem totalSeconds (60 * 60) / 60)%Z in
  let seconds := Z.rem totalSeconds 60 in
  {| days := days; hours := hours; minutes := minutes; seconds := seconds;
     totalSeconds := totalSeconds; isPast := isPast |}.

(** [String(z)] for an integer. *)
Definition ofZ (z : Z) : jsstring :=
  match z with
  | Z0 => js "0"
  | Zpos p => ofNat (Pos.to_nat p)
  | Zneg p => js "-" ++ ofNat (Pos.to_nat p)
  end.

Definition formatTimeRemaining (time : TimeRemaining) : jsstring :=
  let parts :=
    (if (0 <? days time)%Z then [ofZ (days time) ++ js " dni"] else [])
    ++ (if (0 <? hours time)%Z then [ofZ (hours time) ++ js " godz."]
        else [])
    ++ (if (0 <? minutes time)%Z then [ofZ (minutes time) ++ js " min"]
        else [])
    ++ (if (0 <? seconds time)%Z then [ofZ (seconds time) ++ js " sek"]
        else []) in
  let joined := join (js " ") parts in
  if truthy joined then joined else js "0 sekund".

Section Calendar.
(** [new Date(year, monthIndex, day, hours, minutes, seconds)], a local
    time, and [Date.prototype.getFullYear]. Both depend on the time zone
    of the engine; the functions below are stated for any. *)
Variable makeDate : Z -> Z -> Z -> Z -> Z -> Z -> Z.
Variable getFullYear : Z -> Z.

Definition getNextVacationDate (now : Z) : Z :=
  let currentYear := getFullYear now in
  let vacationStart := makeDate currentYear 5 28 0 0 0 in
  if (vacationStart <? now)%Z then
    let vacationEnd := makeDate currentYear 7 31 23 59 59 in
    if (now <=? vacationEnd)%Z then vacationStart
    else makeDate (currentYear + 1) 5 28 0 0 0
  else vacationStart.

Definition isVacationPeriod (now : Z) : bool :=
  let currentYear := getFullYear now in
  let vacationStart := makeDate currentYear 5 28 0 0 0 in
  let vacationEnd := makeDate currentYear 7 31 23 59 59 in
  (vacationStart <=? now)%Z && (now <=? vacationEnd)%Z.

Definition getNextChristmasDate (now : Z) : Z :=
  let currentYear := getFullYear now in
  let christmas := makeDate currentYear 11 24 0 0 0 in
  if (christmas <? now)%Z then
    let christmasEnd := makeDate currentYear 11 26 23 59 59 in
    if (now <=? christmasEnd)%Z then christmas
    else makeDate (currentYear + 1) 11 24 0 0 0
  else christmas.

Definition isChristmasPeriod (now : Z) : bool :=
  let currentYear := getFullYear now in
  let christmasStart := makeDate currentYear 11 24 0 0 0 in
  let christmasEnd := makeDate currentYear 11 26 23 59 59 in
  (christmasStart <=? now)%Z && (now <=? christmasEnd)%Z.

Definition getVacationYear (now : Z) : Z :=
  let currentYear := getFullYear now in
  let vacationEnd := makeDate currentYear 7 31 23 59 59 in
  if (vacationEnd <? now)%Z then (currentYear + 1)%Z else currentYear.

Definition getChristmasYear (now : Z) : Z :=
  let currentYear := getFullYear now in
  let christmasEnd := makeDate currentYear 11 26 23 59 59 in
  if (christmasEnd <? now)%Z then (currentYear + 1)%Z else currentYear.
End Calendar.

(** The calendar of an engine whose time zone is UTC, for in-range fields:
    days since the epoch of a civil date and back (proleptic Gregorian). *)
Definition daysFromCivil (year month day : Z) : Z :=
  let y := (if month <=? 2 then year - 1 else year)%Z in
  let era := (y / 400)%Z in
  let yoe := (y - era * 400)%Z in
  let mp := ((month + 9) mod 12)%Z in
  let doy := ((153 * mp + 2) / 5 + day - 1)%Z in
  let doe := (yoe * 365 + yoe / 4 - yoe / 100 + doy)%Z in
  (era * 146097 + doe - 719468)%Z.

Definition utcDate (year monthIndex day hours minutes seconds : Z) : Z :=
  ((daysFromCivil year (monthIndex + 1) day * 86400
    + hours * 3600 + minutes * 60 + seconds) * 1000)%Z.

Definition utcFullYear (t : Z) : Z :=
  let z := (t / 86400000 + 719468)%Z in
  let era := (z / 146097)%Z in
  let doe := (z - era * 146097)%Z in
  let yoe := ((doe - doe / 1460 + doe / 36524 - doe / 146096) / 365)%Z in
  let doy := (doe - (365 * yoe + yoe / 4 - yoe / 100))%Z in
  let mp := ((5 * doy + 2) / 153)%Z in
  let month := (if mp <? 10 then mp + 3 else mp - 9)%Z in
  (if month <=? 2 then yoe + era * 400 + 1 else yoe + era * 400)%Z.

(** ** getFileBaseName *)

(** The class [[^/.]]. *)
Definition isExtensionChar (c : N) : bool :=
  negb ((c =? 0x2F)%N || (c =? 0x2E)%N).

(** [/\.[^/.]+$/] matches at the start of [s]: a dot, then one or more
    characters of the class, up to the end of the string. *)
Definition matchesExtension (s : jsstring) : bool :=
  match s with
  | [] => false
  | c :: rest =>
      (c =? 0x2E)%N
      && match rest with
         | [] => false
         | _ :: _ => forallb isExtensionChar rest
         end
  end.

(** [fileName.replace(/\.[^/.]+$/, "")]: the leftmost match, which runs to
    the end of the string, is replaced by the empty string. *)
Fixpoint getFileBaseName (fileName : jsstring) : jsstring :=
  if matchesExtension fileName then []
  else match fileName with
       | [] => []
       | c :: rest => c :: getFileBaseName rest
       end.

(** The name the converter offers for the download:
    [`${baseName}.docx`] with [baseName = getFileBaseName(file.name)]. *)
Definition downloadName (fileName : jsstring) : jsstring :=
  getFileBaseName fileName ++ js ".docx".

(** ** createImagesZip and convertPdfToImages *)

Inductive ImageFormat := jpg | png.

(** [format === "jpg" ? "jpg" : "png"]. *)
Definition extensionOf (format : ImageFormat) : jsstring :=
  match format with jpg => js "jpg" | png => js "png" end.

Module PdfConverter.

Section Images.
Variable Blob : Type.

Record ConvertedPage := {
  pageNumber : nat;
  dataUrl : jsstring;
  blob : Blob;
  width : Q;
  height : Q
}.

(** An entry of a [JSZip] archive: a file with its data, or a folder. *)
Inductive ZipEntry :=
| FileEntry (data : Blob)
| FolderEntry.

(** The archive, [this.files], as its entries in insertion order. The
    names met here are never array indices, so the order of the keys is
    the order of insertion. *)
Definition Zip : Type := list (jsstring * ZipEntry).

(** [this.files[name] = object]: a new name comes after the others, a
    known name keeps its place and gets the new entry. *)
Fixpoint zipSet (zip : Zip) (name : jsstring) (entry : ZipEntry) : Zip :=
  match zip with
  | [] => [(name, entry)]
  | (n, e) :: rest =>
      if list_eq_dec N.eq_dec n name then (n, entry) :: rest
      else (n, e) :: zipSet rest name entry
  end.

(** [this.files[name]]. *)
Fixpoint zipGet (zip : Zip) (name : jsstring) : option ZipEntry :=
  match zip with
  | [] => None
  | (n, e) :: rest =>
      if list_eq_dec N.eq_dec n name then Some e else zipGet rest name
  end.

Definition isSlash (c : N) : bool := (c =? 0x2F)%N.

(** JSZip's [forceTrailingSlash]. *)
Definition forceTrailingSlash (path : jsstring) : jsstring :=
  match rev path with
  | c :: _ => if isSlash c then path else path ++ js "/"
  | [] => path ++ js "/"
  end.

(** [path.substring(0, path.lastIndexOf("/"))] when that index is
    positive, the empty string otherwise. *)
Fixpoint upToLastSlash (path : jsstring) : jsstring :=
  match path with
  | [] => []
  | c :: rest =>
      if existsb isSlash rest then c :: upToLastSlash rest else []
  end.

(** JSZip's [parentFolder]: one trailing slash is dropped first. *)
Definition parentFolder (path : jsstring) : jsstring :=
  upToLastSlash
    (match rev path with
     | c :: r => if isSlash c then rev r else path
     | [] => path
     end).

(** JSZip's [fileAdd] with [createFolders] at its default, true: the
    folder that holds the entry is added first when the archive does not
    have it, with its own parent folders, then the entry is stored. A
    parent is shorter than its path, so [fuel] equal to the length of the
    name is never used up. *)
Fixpoint fileAdd (fuel : nat) (zip : Zip) (name : jsstring)
    (entry : ZipEntry) : Zip :=
  let name :=
    match entry with
    | FolderEntry => forceTrailingSlash name
    | FileEntry _ => name
    end in
  let zip :=
    match fuel, parentFolder name with
    | _, [] => zip
    | O, _ :: _ => zip
    | S fuel', parent =>
        let folder := forceTrailingSlash parent in
        match zipGet zip folder with
        | Some _ => zip
        | None => fileAdd fuel' zip folder FolderEntry
        end
    end in
  zipSet zip name entry.

(** [zip.file(name, data)]. *)
Definition zipFile (zip : Zip) (name : jsstring) (data : Blob) : Zip :=
  fileAdd (length name) zip name (FileEntry data).

Definition zipEntryName (baseName : jsstring) (format : ImageFormat)
    (page : ConvertedPage) : jsstring :=
  baseName ++ js "-page-" ++ ofNat (pageNumber page) ++ js "."
  ++ extensionOf format.

(** [createImagesZip] up to [zip.generateAsync]: the archive after the
    [forEach]. *)
Definition createImagesZip (pages : list ConvertedPage)
    (format : ImageFormat) (baseName : jsstring) : Zip :=
  fold_left (fun zip page =>
               zipFile zip (zipEntryName baseName format page) (blob page))
            pages [].

(** The canvas a page was rendered on; [canvas.toDataURL(type, quality)]
    and [dataUrlToBlob], whose promise may reject. *)
Variable Canvas : Type.
Variable toDataURL : Canvas -> jsstring -> option Q -> jsstring.
Variable dataUrlToBlob : jsstring -> option Blob.

Record PDFPageViewport := { viewportWidth : Q; viewportHeight : Q }.

(** [render] gives the canvas once the render promise has resolved. *)
Record PDFPageProxy := {
  getViewport : Q -> PDFPageViewport;
  render : PDFPageViewport -> option Canvas
}.

Record PDFDocumentProxy := {
  numPages : nat;
  getPage : nat -> option PDFPageProxy
}.

Record ConversionOptions := {
  format : ImageFormat;
  scale : Q;
  quality : option Q
}.

Record ConversionProgress := { currentPage : nat; totalPages : nat }.

Definition mimeTypeOf (options : ConversionOptions) : jsstring :=
  match format options with jpg => js "image/jpeg" | png => js "image/png" end.

(** [options.format === "jpg" ? (options.quality ?? 0.92) : undefined]. *)
Definition qualityOf (options : ConversionOptions) : option Q :=
  match format options with
  | jpg => Some (match quality options with Some q => q | None => 0.92 end)
  | png => None
  end.

(** The loop of [convertPdfToImages]: the progress calls made and, unless
    a promise rejected, the pages. *)
Fixpoint convertLoop (pdf : PDFDocumentProxy) (options : ConversionOptions)
    (onProgress : bool) (i remaining : nat) (pages : list ConvertedPage)
  : list ConversionProgress * option (list ConvertedPage) :=
  match remaining with
  | O => ([], Some pages)
  | S remaining' =>
      let called :=
        if onProgress
        then [{| currentPage := i; totalPages := numPages pdf |}]
        else [] in
      match getPage pdf i with
      | None => (called, None)
      | Some page =>
          let viewport := getViewport page (scale options) in
          match render page viewport with
          | None => (called, None)
          | Some canvas =>
              let dataUrl :=
                toDataURL canvas (mimeTypeOf options) (qualityOf options) in
              match dataUrlToBlob dataUrl with
              | None => (called, None)
              | Some blob =>
                  let '(calls, result) :=
                    convertLoop pdf options onProgress (S i) remaining'
                      (pages
                       ++ [{| pageNumber := i;
                              dataUrl := dataUrl;
                              blob := blob;
                              width := viewportWidth viewport;
                              height := viewportHeight viewport |}]) in
                  (called ++ calls, result)
              end
          end
      end
  end.

(** [convertPdfToImages] from the opened document on. *)
Definition convertPdfToImages (pdf : PDFDocumentProxy)
    (options : ConversionOptions) (onProgress : bool)
  : list ConversionProgress * option (list ConvertedPage) :=
  convertLoop pdf options onProgress 1 (numPages pdf) [].
End Images.

End PdfConverter.

(** ** loadPdfJs *)

(** The part of the library object the loader touches:
    [GlobalWorkerOptions.workerSrc]. *)
Record PDFJSStatic := { workerSrc : jsstring }.

Inductive PromiseState :=
| Pending
| Fulfilled (value : PDFJSStatic)
| Rejected (reason : jsstring).

(** The module variables [pdfjsLib] and [loadingPromise], the global
    [window.pdfjsLib], the number of script elements appended to
    [document.head], and whether an appended script has yet to fire its
    load or error event. The handlers of a script settle the promise
    created by the call that appended it, which that call stores in
    [loadingPromise]; no other assignment to [loadingPromise] exists. *)
Record Loader := {
  pdfjsLib : option PDFJSStatic;
  loadingPromise : option PromiseState;
  windowPdfjsLib : option PDFJSStatic;
  scripts : nat;
  scriptPending : bool
}.

(** What a call of [loadPdfJs] hands back: [pdfjsLib] itself, or the
    shared [loadingPromise]. *)
Inductive LoadResult :=
| Library (lib : PDFJSStatic)
| SharedPromise.

Definition workerUrl : jsstring :=
  js "https://cdnjs.cloudflare.com/ajax/libs/pdf.js/3.11.174/pdf.worker.min.js".

(** [resolve] and [reject] act on a pending promise only. *)
Definition settle (p : option PromiseState) (outcome : PromiseState)
  : option PromiseState :=
  match p with
  | Some Pending => Some outcome
  | _ => p
  end.

Definition loadPdfJs (s : Loader) : Loader * LoadResult :=
  match pdfjsLib s with
  | Some lib => (s, Library lib)
  | None =>
      match loadingPromise s with
      | Some _ => (s, SharedPromise)
      | None =>
          match windowPdfjsLib s with
          | Some existingPdfjs =>
              ({| pdfjsLib := Some existingPdfjs;
                  loadingPromise := Some (Fulfilled existingPdfjs);
                  windowPdfjsLib := windowPdfjsLib s;
                  scripts := scripts s;
                  scriptPending := scriptPending s |},
               SharedPromise)
          | None =>
              ({| pdfjsLib := None;
                  loadingPromise := Some Pending;
                  windowPdfjsLib := None;
                  scripts := S (scripts s);
                  scriptPending := true |},
               SharedPromise)
          end
      end
  end.

(** [script.onload]. *)
Definition onload (s : Loader) : Loader :=
  match windowPdfjsLib s with
  | Some _ =>
      let pdfjs := {| workerSrc := workerUrl |} in
      {| pdfjsLib := Some pdfjs;
         loadingPromise := settle (loadingPromise s) (Fulfilled pdfjs);
         windowPdfjsLib := Some pdfjs;
         scripts := scripts s;
         scriptPending := false |}
  | None =>
      {| pdfjsLib := pdfjsLib s;
         loadingPromise :=
           settle (loadingPromise s)
                  (Rejected (js "Failed to load pdf.js library"));
         windowPdfjsLib := None;
         scripts := scripts s;
         scriptPending := false |}
  end.

(** [script.onerror]. *)
Definition onerror (s : Loader) : Loader :=
  {| pdfjsLib := pdfjsLib s;
     loadingPromise :=
       settle (loadingPromise s)
              (Rejected (js "Failed to load pdf.js script"));
     windowPdfjsLib := windowPdfjsLib s;
     scripts := scripts s;
     scriptPending := false |}.

(** What can happen to the loader: a call, the load or error event of the
    appended script, and other code defining [window.pdfjsLib] (the
    script itself, or the other module that loads the same library). *)
Inductive LoaderAction :=
| CallLoadPdfJs
| ScriptLoadEvent
| ScriptErrorEvent
| WindowDefines (lib : PDFJSStatic).

(** A script event happens only to a script that was appended and has not
    fired yet. *)
Definition loaderStep (s : Loader) (a : LoaderAction) : Loader :=
  match a with
  | CallLoadPdfJs => fst (loadPdfJs s)
  | ScriptLoadEvent => if scriptPending s then onload s else s
  | ScriptErrorEvent => if scriptPending s then onerror s else s
  | WindowDefines lib =>
      {| pdfjsLib := pdfjsLib s;
         loadingPromise := loadingPromise s;
         windowPdfjsLib := Some lib;
         scripts := scripts s;
         scriptPending := scriptPending s |}
  end.

Definition loaderRun (s : Loader) (actions : list LoaderAction) : Loader :=
  fold_left loaderStep actions s.

(** The module when it has just been evaluated. *)
Definition freshLoader (window : option PDFJSStatic) : Loader :=
  {| pdfjsLib := None; loadingPromise := None; windowPdfjsLib := window;
     scripts := 0; scriptPending := false |}.

(** ** Further notions used to state the properties *)

(** Two representatives at least the line threshold apart. *)
Definition apart (a b : Q) : Prop := (3 <= Qabs (a - b))%Q.

(** The calls the orchestrator makes for page [i]. *)
Definition pageCalls (pdf : PDFDocumentProxy) (onProgress : bool) (i : nat)
  : list Event :=
  (if onProgress then [ProgressCall (extractingProgress pdf i)] else [])
  ++ [GetPageCall i].

(** The page is not delivered, or its text content is not. *)
Definition pageFails (pdf : PDFDocumentProxy) (i : nat) : Prop :=
  getPage pdf i = None
  \/ exists page, getPage pdf i = Some page /\ extractPageText page = None.

Definition pageReads (pdf : PDFDocumentProxy) (i : nat) : Prop :=
  exists page paragraphs,
    getPage pdf i = Some page /\ extractPageText page = Some paragraphs.

(** What holds of the loader in every state it can reach. *)
Definition loaderInv (s : Loader) : Prop :=
  (scripts s <= 1)%nat
  /\ (scriptPending s = true ->
      loadingPromise s = Some Pending /\ pdfjsLib s = None
      /\ scripts s = 1%nat)
  /\ (loadingPromise s = None ->
      scripts s = 0%nat /\ pdfjsLib s = None /\ scriptPending s = false)
  /\ (forall lib, pdfjsLib s = Some lib ->
                  loadingPromise s = Some (Fulfilled lib))
  /\ (forall reason, loadingPromise s = Some (Rejected reason) ->
                     pdfjsLib s = None /\ scripts s = 1%nat).

(** * Properties *)

(** ** Helper lemmas *)

Lemma Qltb_lt (a b : Q) : Qltb a b = true <-> (a < b)%Q.
Proof.
  unfold Qltb. rewrite negb_true_iff.
  split; intro H.
  - apply Qnot_le_lt. intro Hle. apply Qle_bool_iff in Hle. congruence.
  - destruct (Qle_bool b a) eqn:E; [|reflexivity].
    apply Qle_bool_iff in E. exfalso. apply (Qlt_not_le _ _ H E).
Qed.

Lemma Qltb_ge (a b : Q) : Qltb a b = false <-> (b <= a)%Q.
Proof.
  unfold Qltb. rewrite negb_false_iff. apply Qle_bool_iff.
Qed.

Lemma length_pos_nonempty (A : Type) (l : list A) :
  (0 <? length l)%nat = true <-> l <> [].
Proof.
  destruct l; simpl; split; intro H; try congruence; try reflexivity.
  now contradict H.
Qed.

(** ** validatePdfFile: the size ceiling *)

Lemma typeError_neq_sizeError : typeError <> sizeError.
Proof. intro H. discriminate H. Qed.

(** C10. A file whose lower-cased name ends with ".pdf" and whose size is
    exactly 50*1024*1024 bytes is valid; a file is rejected with the size
    error only when its size is strictly above 50*1024*1024, and a file
    that passes the type check is rejected with it exactly in that case. *)
Theorem validatePdfFile_size_ceiling
    (toLowerCase : jsstring -> jsstring) (file : File) :
  (endsWith (toLowerCase (name file)) (js ".pdf") = true ->
   size file = (50 * 1024 * 1024)%N ->
   validatePdfFile toLowerCase file = {| valid := true; error := None |})
  /\ (error (validatePdfFile toLowerCase file) = Some sizeError ->
      (50 * 1024 * 1024 < size file)%N)
  /\ (endsWith (toLowerCase (name file)) (js ".pdf") = true ->
      (50 * 1024 * 1024 < size file)%N ->
      validatePdfFile toLowerCase file
      = {| valid := false; error := Some sizeError |}).
Proof.
  change (50 * 1024 * 1024)%N with maxSize.
  unfold validatePdfFile.
  destruct (negb (includes (type file) (js "pdf"))) eqn:Etype;
    destruct (endsWith (toLowerCase (name file)) (js ".pdf")) eqn:Ename;
    destruct (N.ltb_spec maxSize (size file)) as [Hlt|Hge];
    cbn [negb andb error]; repeat split; intros;
    try reflexivity; try discriminate; try assumption; try lia.
  all: exfalso; apply typeError_neq_sizeError; congruence.
Qed.

Lemma validatePdfFile_size_ceiling_witness :
  validatePdfFile asciiToLowerCase
    {| name := js "Report.PDF"; type := js ""; size := 52428800 |}
  = {| valid := true; error := None |}
  /\ validatePdfFile asciiToLowerCase
       {| name := js "Report.PDF"; type := js ""; size := 52428801 |}
     = {| valid := false; error := Some sizeError |}.
Proof.
  split.
  - apply (proj1 (validatePdfFile_size_ceiling asciiToLowerCase
             {| name := js "Report.PDF"; type := js ""; size := 52428800 |}));
      reflexivity.
  - apply (proj2 (proj2 (validatePdfFile_size_ceiling asciiToLowerCase
             {| name := js "Report.PDF"; type := js ""; size := 52428801 |})));
      reflexivity.
Defined.

(** ** extractPageText: filtering and empty pages *)

Lemma positionedItems_nil_iff (h : Q) (its : list PDFTextItem) :
  positionedItems h its = [] <->
  (forall item, In item its -> keepItem item = false).
Proof.
  unfold positionedItems. split.
  - intros H item Hin.
    destruct (keepItem item) eqn:E; [|reflexivity].
    assert (Hf : In item (filter keepItem its)) by (apply filter_In; auto).
    apply (in_map (toPositioned h)) in Hf. rewrite H in Hf. destruct Hf.
  - intro H. induction its as [|a its IH]; [reflexivity|]. simpl.
    rewrite (H a (or_introl eq_refl)). apply IH.
    intros item Hin. apply H. now right.
Qed.

Lemma keepItem_false_iff (item : PDFTextItem) :
  keepItem item = false <->
  trim (str item) = [] /\ flag (hasEOL item) = false.
Proof.
  unfold keepItem. rewrite orb_false_iff.
  destruct (trim (str item)) as [|c s]; cbn; split; intros [H1 H2];
    split; auto; discriminate.
Qed.

Lemma filter_idem (A : Type) (f : A -> bool) (l : list A) :
  filter f (filter f l) = filter f l.
Proof.
  induction l as [|a l IH]; [reflexivity|]. cbn [filter].
  destruct (f a) eqn:E; [|exact IH]. cbn [filter]. now rewrite E, IH.
Qed.

Lemma pageParagraphs_kept_items (h : Q) (its : list PDFTextItem) :
  pageParagraphs h its = pageParagraphs h (filter keepItem its).
Proof.
  unfold pageParagraphs. destruct its as [|a its]; [reflexivity|].
  unfold positionedItems. rewrite filter_idem.
  destruct (filter keepItem (a :: its)) as [|b kept]; reflexivity.
Qed.

Lemma keepItem_spelled (item : PDFTextItem) :
  keepItem item
  = negb (match trim (str item) with [] => true | _ :: _ => false end
          && negb (match hasEOL item with Some true => true | _ => false end)).
Proof.
  unfold keepItem, flag.
  destruct (trim (str item)); destruct (hasEOL item) as [[|]|]; reflexivity.
Qed.

(** C8. The runs kept for reconstruction are, in input order, the items
    that are not both empty after trimming and without an end-of-line hint;
    the discarded items have no part in the result, which is the result
    for the page without them; whenever the page's text content resolves,
    [extractPageText] returns a list, and that list is empty when the page
    has no items or when no item survives the filter. *)
Theorem extractPageText_discards_and_empty_page
    (page : PDFPageProxy) (textContent : PDFTextContent) :
  getTextContent page = Some textContent ->
  let pageHeight := height (getViewport page 1) in
  let positioned := positionedItems pageHeight (items textContent) in
  (forall item, In item (items textContent) ->
     trim (str item) = [] -> flag (hasEOL item) = false ->
     ~ In (toPositioned pageHeight item) positioned)
  /\ (forall p, In p positioned <->
        exists item, In item (items textContent)
                     /\ p = toPositioned pageHeight item
                     /\ ~ (trim (str item) = [] /\ flag (hasEOL item) = false))
  /\ (exists paragraphs, extractPageText page = Some paragraphs)
  /\ (items textContent = [] -> extractPageText page = Some [])
  /\ (positioned = [] -> extractPageText page = Some [])
  /\ ((forall item, In item (items textContent) ->
         trim (str item) = [] /\ flag (hasEOL item) = false) ->
      extractPageText page = Some [])
  /\ extractPageText page
     = extractPageText
         {| getTextContent :=
              Some {| items :=
                        filter
                          (fun item =>
                             negb (match trim (str item) with
                                   | [] => true
                                   | _ :: _ => false
                                   end
                                   && negb (match hasEOL item with
                                            | Some true => true
                                            | _ => false
                                            end)))
                          (items textContent) |};
            getViewport := getViewport page |}.
Proof.
  intros Htc pageHeight positioned.
  assert (Hkept : extractPageText page
     = extractPageText
         {| getTextContent :=
              Some {| items :=
                        filter
                          (fun item =>
                             negb (match trim (str item) with
                                   | [] => true
                                   | _ :: _ => false
                                   end
                                   && negb (match hasEOL item with
                                            | Some true => true
                                            | _ => false
                                            end)))
                          (items textContent) |};
            getViewport := getViewport page |}).
  { unfold extractPageText. rewrite Htc. cbn [getTextContent getViewport items].
    f_equal. rewrite pageParagraphs_kept_items. f_equal.
    apply filter_ext. intro item. apply keepItem_spelled. }
  assert (Hin : forall p, In p positioned <->
        exists item, In item (items textContent)
                     /\ p = toPositioned pageHeight item
                     /\ ~ (trim (str item) = [] /\ flag (hasEOL item) = false)).
  { intro p. unfold positioned, positionedItems. rewrite in_map_iff.
    split.
    - intros (item & Hp & Hf). apply filter_In in Hf. destruct Hf as [Hi Hk].
      exists item. repeat split; auto.
      intro Hno. apply keepItem_false_iff in Hno. congruence.
    - intros (item & Hi & Hp & Hno). exists item. split; [auto|].
      apply filter_In. split; [assumption|].
      destruct (keepItem item) eqn:E; [reflexivity|].
      apply keepItem_false_iff in E. contradiction. }
  assert (Hnil : positioned = [] -> extractPageText page = Some []).
  { intro Hnil. unfold extractPageText. rewrite Htc.
    unfold positioned, pageHeight in Hnil. clear Hin. unfold pageParagraphs.
    destruct (items textContent); [reflexivity|].
    cbv zeta. now rewrite Hnil. }
  repeat split.
  - intros item Hi Hempty Hflag Hp.
    apply Hin in Hp. destruct Hp as (item' & Hi' & Heq & Hno).
    apply Hno.
    pose proof (f_equal p_text Heq) as Hs.
    pose proof (f_equal p_hasEOL Heq) as Hf.
    cbn in Hs, Hf. rewrite <- Hs, <- Hf. auto.
  - apply Hin.
  - apply Hin.
  - unfold extractPageText. rewrite Htc. eauto.
  - intro Hitems. unfold extractPageText. rewrite Htc, Hitems. reflexivity.
  - exact Hnil.
  - intro Hall. apply Hnil. apply positionedItems_nil_iff.
    intros item Hi. now apply keepItem_false_iff, Hall.
  - exact Hkept.
Qed.

Lemma extractPageText_discards_and_empty_page_witness :
  extractPageText
    (mkPage 100 [mkItem "  " 0 100 None; mkItem "" 0 80 (Some false)])
  = Some []
  /\ extractPageText
       (mkPage 100 [mkItem "a" 0 90 None; mkItem " " 5 90 None;
                    mkItem "b" 10 90 None])
     = Some [js "a b"].
Proof.
  split.
  - apply (proj1 (proj2 (proj2 (proj2 (proj2
      (extractPageText_discards_and_empty_page
         (mkPage 100 [mkItem "  " 0 100 None; mkItem "" 0 80 (Some false)])
         eq_refl)))))).
    reflexivity.
  - rewrite (proj2 (proj2 (proj2 (proj2 (proj2 (proj2
      (extractPageText_discards_and_empty_page
         (mkPage 100 [mkItem "a" 0 90 None; mkItem " " 5 90 None;
                      mkItem "b" 10 90 None])
         eq_refl))))))).
    reflexivity.
Defined.

(** ** extractPageText: paragraphs are never empty *)

Lemma paragraphLoop_nonempty (lineTexts : list jsstring)
    (rest : list TextLine) :
  forall i prev paragraphs currentParagraph,
    Forall (fun p => p <> []) paragraphs ->
    currentParagraph <> [] ->
    Forall (fun p => p <> [])
      (fst (paragraphLoop lineTexts i prev rest paragraphs currentParagraph))
    /\ snd (paragraphLoop lineTexts i prev rest paragraphs currentParagraph)
       <> [].
Proof.
  induction rest as [|line rest IH]; intros i prev paragraphs cur Hps Hcur.
  - simpl. auto.
  - simpl. destruct (nth_error lineTexts i) as [[|c s]|]; try (now apply IH).
    destruct (Qltb PARAGRAPH_GAP (y line - y prev)).
    + apply IH; [|discriminate].
      apply Forall_app. split; [assumption|]. constructor; auto.
    + apply IH; [assumption|].
      intro H. apply app_eq_nil in H. now destruct H.
Qed.

Lemma lineTextsOf_nonempty (lines : list TextLine) :
  Forall (fun t => t <> []) (lineTextsOf lines).
Proof.
  unfold lineTextsOf. apply Forall_forall. intros t Ht.
  apply filter_In in Ht. destruct Ht as [_ Ht].
  now apply length_pos_nonempty.
Qed.

Lemma formParagraphs_nonempty (lines : list TextLine)
    (lineTexts : list jsstring) :
  Forall (fun t => t <> []) lineTexts ->
  Forall (fun p => p <> []) (formParagraphs lines lineTexts).
Proof.
  intro Hts. unfold formParagraphs.
  destruct lineTexts as [|first more]; [constructor|].
  assert (Hfirst : first <> []) by (now inversion Hts).
  destruct lines as [|l0 rest].
  - destruct first; [now elim Hfirst|]. simpl.
    constructor; [discriminate|constructor].
  - destruct (paragraphLoop_nonempty (first :: more) rest 1 l0
                (paragraphs := @nil jsstring) (Forall_nil _) Hfirst)
      as [Hps Hcur].
    destruct (paragraphLoop (first :: more) 1 l0 rest [] first) as [ps cur].
    cbn [fst snd] in Hps, Hcur. destruct cur; [now elim Hcur|]. cbn [truthy].
    apply Forall_app. split; [assumption|].
    constructor; [discriminate|constructor].
Qed.

(** C9. No paragraph returned by [extractPageText] is the empty string. *)
Theorem extractPageText_paragraphs_nonempty
    (page : PDFPageProxy) (paragraphs : list jsstring) :
  extractPageText page = Some paragraphs ->
  forall p, In p paragraphs -> p <> [] /\ (0 < length p)%nat.
Proof.
  unfold extractPageText.
  destruct (getTextContent page) as [tc|]; [|discriminate].
  intros H p Hin. injection H as <-.
  assert (Hne : p <> []).
  { revert p Hin. apply Forall_forall.
    unfold pageParagraphs.
    destruct (items tc); [constructor|].
    destruct (positionedItems _ _); [constructor|].
    apply formParagraphs_nonempty, lineTextsOf_nonempty. }
  split; [assumption|]. destruct p; [now elim Hne|simpl; lia].
Qed.

Lemma extractPageText_paragraphs_nonempty_witness :
  js "a b" <> [] /\ (0 < length (js "a b"))%nat.
Proof.
  apply (@extractPageText_paragraphs_nonempty
           (mkPage 100 [mkItem "a" 0 100 None; mkItem " " 0 95 (Some true);
                        mkItem "b" 0 80 None])
           [js "a b"]).
  - reflexivity.
  - simpl. left. reflexivity.
Defined.

(** ** extractPageText: line clustering *)



Lemma pushToLine_keeps_ys (item : Positioned) (lines : list TextLine) :
  forall lines', pushToLine lines item = Some lines' ->
                 map y lines' = map y lines.
Proof.
  induction lines as [|b lines IH]; intros lines' H; cbn [pushToLine] in H;
    [discriminate|].
  destruct (Qltb (Qabs (y b - p_y item)) LINE_THRESHOLD).
  - injection H as <-. reflexivity.
  - destruct (pushToLine lines item) as [r|]; [|discriminate].
    injection H as <-. simpl. f_equal. now apply IH.
Qed.






(** ** extractPageText: ordering of lines and of runs within a line *)

Section SortFacts.
Variable A : Type.
Variable key : A -> Q.

Lemma compare_le (a b : A) :
  Qle_bool (key a - key b) 0 = true <-> (key a <= key b)%Q.
Proof. rewrite Qle_bool_iff. split; intro H; lra. Qed.

Lemma insertSorted_perm (a : A) (l : list A) :
  Permutation (insertSorted (fun a b => key a - key b) a l) (a :: l).
Proof.
  induction l as [|b l IH]; cbn [insertSorted]; [reflexivity|].
  destruct (Qle_bool (key a - key b) 0); [reflexivity|].
  rewrite IH. apply perm_swap.
Qed.

Lemma sort_perm (l : list A) :
  Permutation (sort (fun a b => key a - key b) l) l.
Proof.
  induction l as [|a l IH]; cbn [sort fold_right]; [reflexivity|].
  fold (sort (fun a b => key a - key b) l).
  rewrite insertSorted_perm. now constructor.
Qed.

Lemma insertSorted_sorted (a : A) (l : list A) :
  StronglySorted (fun a b => (key a <= key b)%Q) l ->
  StronglySorted (fun a b => (key a <= key b)%Q)
                 (insertSorted (fun a b => key a - key b) a l).
Proof.
  induction l as [|b l IH]; intro Hs; cbn [insertSorted].
  - constructor; constructor.
  - inversion Hs as [|? ? Hl Hb]; subst.
    destruct (Qle_bool (key a - key b) 0) eqn:E.
    + apply compare_le in E. constructor; [assumption|].
      constructor; [assumption|].
      eapply Forall_impl; [|exact Hb].
      intros c Hc. cbv beta in *. lra.
    + constructor; [now apply IH|].
      assert (Hba : (key b <= key a)%Q).
      { destruct (Qlt_le_dec (key b) (key a)) as [Hlt|Hle].
        - lra.
        - apply compare_le in Hle. congruence. }
      eapply Permutation_Forall.
      * symmetry. apply insertSorted_perm.
      * constructor; assumption.
Qed.

Lemma sort_sorted (l : list A) :
  StronglySorted (fun a b => (key a <= key b)%Q)
                 (sort (fun a b => key a - key b) l).
Proof.
  induction l as [|a l IH]; cbn [sort fold_right]; [constructor|].
  now apply insertSorted_sorted.
Qed.
End SortFacts.

Lemma sortedLines_sorted (lines : list TextLine) :
  StronglySorted (fun a b => (y a <= y b)%Q) (sortedLines lines).
Proof.
  unfold sortedLines.
  pose proof (sort_sorted y lines) as Hs.
  induction Hs as [|l ls Hs IH Hall]; cbn [map]; constructor.
  - exact IH.
  - apply Forall_map. exact Hall.
Qed.

Lemma sortedLines_items_sorted (lines : list TextLine) :
  Forall (fun line => StronglySorted (fun a b => (x a <= x b)%Q)
                        (line_items line))
         (sortedLines lines).
Proof.
  unfold sortedLines. apply Forall_map, Forall_forall. intros line _.
  cbn [sortLineItems line_items]. apply (sort_sorted x).
Qed.

Lemma sortedLines_content (lines : list TextLine) :
  exists reordered,
    Permutation reordered lines
    /\ Forall2 sameContent (sortedLines lines) reordered.
Proof.
  exists (sort (fun a b => y a - y b) lines). split.
  - apply (sort_perm y).
  - unfold sortedLines.
    induction (sort (fun a b => y a - y b) lines) as [|l ls IH];
      cbn [map]; constructor; [|exact IH].
    split; [reflexivity|]. cbn [sortLineItems line_items].
    apply (sort_perm x).
Qed.

Lemma three_runs_any_order (l : list LineItem) :
  Permutation l [runC; runA; runB] ->
  sort (fun a b => x a - x b) l = [runA; runB; runC].
Proof.
  intro Hp.
  assert (Hnd : NoDup l).
  { apply (Permutation_NoDup (Permutation_sym Hp)).
    repeat constructor; cbn; intuition discriminate. }
  pose proof (Permutation_length Hp) as Hlen.
  destruct l as [|p [|q [|r [|]]]]; try discriminate Hlen.
  assert (Hin : forall e, In e [p; q; r] -> In e [runC; runA; runB])
    by (intros e; apply (Permutation_in e Hp)).
  pose proof (Hin p (or_introl eq_refl)) as Hp1.
  pose proof (Hin q (or_intror (or_introl eq_refl))) as Hq1.
  pose proof (Hin r (or_intror (or_intror (or_introl eq_refl)))) as Hr1.
  inversion Hnd as [|? ? Hnp Hnd']; subst.
  inversion Hnd' as [|? ? Hnq Hnd'']; subst.
  cbn in Hp1, Hq1, Hr1, Hnp, Hnq.
  destruct Hp1 as [<-|[<-|[<-|[]]]];
    destruct Hq1 as [<-|[<-|[<-|[]]]];
    destruct Hr1 as [<-|[<-|[<-|[]]]];
    try (exfalso; apply Hnp; auto; fail);
    try (exfalso; apply Hnq; auto; fail);
    reflexivity.
Qed.

(** ** extractPageText: paragraph formation *)

Lemma pageParagraphs_formParagraphs
    (pageHeight : Q) (its : list PDFTextItem) :
  pageParagraphs pageHeight its
  = formParagraphs (pageLines pageHeight its)
                   (lineTextsOf (pageLines pageHeight its)).
Proof.
  unfold pageParagraphs, pageLines.
  destruct its as [|it its]; [reflexivity|].
  destruct (positionedItems pageHeight (it :: its)); reflexivity.
Qed.

Lemma lineTextsOf_all (lines : list TextLine) :
  Forall (fun l => lineText l <> []) lines ->
  lineTextsOf lines = map lineText lines.
Proof.
  unfold lineTextsOf. induction 1 as [|l ls Hl _ IH]; [reflexivity|].
  cbn [map filter]. apply length_pos_nonempty in Hl. rewrite Hl.
  now rewrite IH.
Qed.

Lemma nth_error_middle (A : Type) (pre : list A) (a : A) (post : list A) :
  nth_error (pre ++ a :: post) (length pre) = Some a.
Proof. induction pre; [reflexivity | assumption]. Qed.

Lemma paragraphLoop_splitParagraphs (rest : list TextLine) :
  forall pre prev paragraphs currentParagraph,
    Forall (fun l => lineText l <> []) rest ->
    let r := paragraphLoop (pre ++ map lineText rest) (length pre) prev rest
               paragraphs currentParagraph in
    fst r ++ [snd r]
    = paragraphs
      ++ splitParagraphs (y prev) currentParagraph (map positionedText rest).
Proof.
  induction rest as [|line rest IH]; intros pre prev ps cur Hne; cbv zeta.
  - reflexivity.
  - inversion Hne as [|? ? Hline Hrest]; subst.
    cbn [map paragraphLoop]. rewrite nth_error_middle.
    unfold positionedText at 1.
    remember (lineText line) as t eqn:Et.
    replace (pre ++ t :: map lineText rest)
      with ((pre ++ [t]) ++ map lineText rest)
      by (now rewrite <- app_assoc).
    replace (S (length pre)) with (length (pre ++ [t]))
      by (rewrite length_app; cbn; lia).
    destruct t as [|c s]; [now elim Hline|].
    cbn [splitParagraphs]. unfold PARAGRAPH_GAP.
    destruct (Qlt_le_dec 10 (y line - y prev)) as [Hgt|Hle].
    + apply Qltb_lt in Hgt. rewrite Hgt.
      rewrite (IH _ line (ps ++ [cur]) (c :: s) Hrest).
      now rewrite <- app_assoc.
    + apply Qltb_ge in Hle. rewrite Hle.
      apply (IH _ line ps (cur ++ js " " ++ c :: s) Hrest).
Qed.

Lemma formParagraphs_paragraphsByGap (lines : list TextLine) :
  Forall (fun l => lineText l <> []) lines ->
  formParagraphs lines (lineTextsOf lines)
  = paragraphsByGap (map positionedText lines).
Proof.
  intro Hne. rewrite (lineTextsOf_all Hne).
  destruct lines as [|l0 rest]; [reflexivity|].
  inversion Hne as [|? ? H0 Hrest]; subst.
  cbn [map formParagraphs paragraphsByGap positionedText].
  pose proof (@paragraphLoop_splitParagraphs rest [lineText l0] l0 []
                (lineText l0) Hrest) as Hloop.
  pose proof (@paragraphLoop_nonempty (lineText l0 :: map lineText rest)
                rest 1 l0 (@nil jsstring) (lineText l0) (Forall_nil _) H0)
    as [_ Hcur].
  cbv zeta in Hloop. cbn [app length] in Hloop.
  destruct (paragraphLoop (lineText l0 :: map lineText rest) 1 l0 rest []
              (lineText l0)) as [ps cur].
  cbn [fst snd] in Hloop, Hcur.
  destruct cur; [now elim Hcur|]. cbn [truthy]. exact Hloop.
Qed.

(** On a page all of whose lines have text, the paragraphs are formed
    line by line on the gap to the line before: a gap above 10 closes the
    paragraph and the line starts the next one, any smaller or equal gap
    appends the line's text after a space. So a page whose only lines lie
    at Y = 0, 5, 20 gives two paragraphs: the first two lines joined, the
    third alone. *)
Lemma extractPageText_paragraph_gap
    (page : PDFPageProxy) (textContent : PDFTextContent) :
  getTextContent page = Some textContent ->
  let lines := pageLines (height (getViewport page 1)) (items textContent) in
  Forall (fun l => lineText l <> []) lines ->
  extractPageText page
  = Some (paragraphsByGap (map (fun l => (y l, lineText l)) lines))
  /\ (forall l0 l1 l2,
         lines = [l0; l1; l2] ->
         (y l0 == 0)%Q -> (y l1 == 5)%Q -> (y l2 == 20)%Q ->
         extractPageText page
         = Some [lineText l0 ++ js " " ++ lineText l1; lineText l2]).
Proof.
  intros Htc lines Hne.
  assert (Hgen : extractPageText page
                 = Some (paragraphsByGap (map positionedText lines))).
  { unfold extractPageText. rewrite Htc. cbv zeta. f_equal.
    rewrite pageParagraphs_formParagraphs. fold lines.
    now apply formParagraphs_paragraphsByGap. }
  split; [exact Hgen|].
  intros l0 l1 l2 Hlines H0 H1 H2. rewrite Hgen, Hlines.
  cbn [map paragraphsByGap positionedText splitParagraphs].
  destruct (Qlt_le_dec 10 (y l1 - y l0)) as [Hgt|_]; [exfalso; lra|].
  destruct (Qlt_le_dec 10 (y l2 - y l1)) as [_|Hle]; [|exfalso; lra].
  reflexivity.
Qed.

Lemma extractPageText_paragraph_gap_witness :
  extractPageText
    (mkPage 20 [mkItem "one" 0 20 None; mkItem "two" 0 15 None;
                mkItem "three" 0 0 None])
  = Some [js "one two"; js "three"].
Proof.
  refine (proj2 (@extractPageText_paragraph_gap
            (mkPage 20 [mkItem "one" 0 20 None; mkItem "two" 0 15 None;
                        mkItem "three" 0 0 None])
            {| items := [mkItem "one" 0 20 None; mkItem "two" 0 15 None;
                         mkItem "three" 0 0 None] |}
            eq_refl _)
          (sortLineItems {| y := 1 * 20 - 20;
                            line_items := [{| x := 0; text := js "one" |}] |})
          (sortLineItems {| y := 1 * 20 - 15;
                            line_items := [{| x := 0; text := js "two" |}] |})
          (sortLineItems {| y := 1 * 20 - 0;
                            line_items := [{| x := 0; text := js "three" |}] |})
          eq_refl _ _ _).
  - repeat constructor; discriminate.
  - reflexivity.
  - reflexivity.
  - reflexivity.
Defined.

(** C4. The page has the lines "a" at Y = 0, "b" at Y = 5 and "c" at
    Y = 20, the lines that have text, and between the last two a line of
    empty text at Y = 12 (an end-of-line run). Split on the gaps between
    the lines that have text, 5 and 15, the page has the two paragraphs
    "a b" and "c"; [extractPageText] judges "c" by the gap between the
    second and the third entry of the unfiltered line array, 12 - 5 = 7,
    never sees the gap of 15, and returns the single paragraph "a b c". *)
Theorem extractPageText_split_missed_after_empty_line :
  let its := [mkItem "a" 0 100 None; mkItem "b" 0 95 None;
              mkItem "" 0 88 (Some true); mkItem "c" 0 80 None] in
  map positionedText (pageLines 100 its)
  = [((100 - 100)%Q, js "a"); ((100 - 95)%Q, js "b");
     ((100 - 88)%Q, []); ((100 - 80)%Q, js "c")]
  /\ paragraphsSkippingEmpty (pageLines 100 its) = [js "a b"; js "c"]
  /\ extractPageText
       {| getTextContent := Some {| items := its |};
          getViewport := fun _ => {| height := 100 |} |}
     = Some [js "a b c"].
Proof. cbv zeta. repeat split; reflexivity. Qed.

(** C1. The page has a line "a" at Y = 0, a line of empty text at Y = 5
    (an end-of-line run) and a line "b" at Y = 20. Measured between the two
    lines that have text the gap is 20 and the page has two paragraphs;
    [extractPageText] pairs the second text with the gap between the first
    two entries of the unfiltered line array, which is 5, and returns the
    single paragraph "a b". *)
Theorem extractPageText_gap_across_empty_line :
  let its := [mkItem "a" 0 100 None; mkItem "" 0 95 (Some true);
              mkItem "b" 0 80 None] in
  map positionedText (pageLines 100 its)
  = [((100 - 100)%Q, js "a"); ((100 - 95)%Q, []); ((100 - 80)%Q, js "b")]
  /\ paragraphsSkippingEmpty (pageLines 100 its) = [js "a"; js "b"]
  /\ extractPageText
       {| getTextContent := Some {| items := its |};
          getViewport := fun _ => {| height := 100 |} |}
     = Some [js "a b"].
Proof. cbv zeta. repeat split; reflexivity. Qed.

(** ** convertPdfToWord: extraction loop and progress calls *)

Lemma extractLoop_step (pdf : PDFDocumentProxy) (onProgress : bool)
    (i remaining : nat) (acc : list (list jsstring)) :
  extractLoop pdf onProgress i (S remaining) acc
  = let pre := (if onProgress then [ProgressCall (extractingProgress pdf i)]
                else []) ++ [GetPageCall i] in
    match getPage pdf i with
    | None => (pre, None)
    | Some page =>
        match extractPageText page with
        | None => (pre, None)
        | Some paragraphs =>
            let '(t, r) := extractLoop pdf onProgress (S i) remaining
                             (acc ++ [paragraphs]) in
            (pre ++ t, r)
        end
    end.
Proof.
  cbn [extractLoop]. unfold bind, callOnProgress, emit, await, ret.
  fold (extractingProgress pdf i).
  destruct onProgress, (getPage pdf i) as [page|]; cbn [app];
    try reflexivity;
    destruct (extractPageText page) as [ps|]; cbn [app]; try reflexivity;
    destruct (extractLoop pdf _ (S i) remaining (acc ++ [ps])) as [t r];
    reflexivity.
Qed.

Lemma extractLoop_pages (pdf : PDFDocumentProxy) (onProgress : bool)
    (remaining : nat) :
  forall i acc t all,
    extractLoop pdf onProgress i remaining acc = (t, Some all) ->
    exists texts,
      all = acc ++ texts
      /\ length texts = remaining
      /\ forall k paragraphs,
           nth_error texts k = Some paragraphs ->
           exists page, getPage pdf (i + k) = Some page
                        /\ extractPageText page = Some paragraphs.
Proof.
  induction remaining as [|remaining IH]; intros i acc t all H.
  - cbn in H. injection H as _ <-. exists []. rewrite app_nil_r.
    repeat split. intros [|k] ps Hk; discriminate Hk.
  - rewrite extractLoop_step in H. cbv zeta in H.
    destruct (getPage pdf i) as [page|] eqn:Epage; [|discriminate].
    destruct (extractPageText page) as [ps|] eqn:Etext; [|discriminate].
    destruct (extractLoop pdf onProgress (S i) remaining (acc ++ [ps]))
      as [t' r] eqn:Erest.
    injection H as _ ->.
    destruct (IH _ _ _ _ Erest) as (texts & Hall & Hlen & Hnth).
    exists (ps :: texts). repeat split.
    + now rewrite Hall, <- app_assoc.
    + cbn. now rewrite Hlen.
    + intros [|k] ps' Hk.
      * cbn in Hk. injection Hk as <-. rewrite Nat.add_0_r. eauto.
      * cbn in Hk. rewrite Nat.add_succ_r. now apply Hnth.
Qed.

Lemma extractLoop_trace (pdf : PDFDocumentProxy) (remaining : nat) :
  forall i acc,
    (forall j, (i <= j < i + remaining)%nat ->
       exists page paragraphs,
         getPage pdf j = Some page
         /\ extractPageText page = Some paragraphs) ->
    exists all,
      extractLoop pdf true i remaining acc
      = (flat_map (fun j => [ProgressCall (extractingProgress pdf j);
                             GetPageCall j])
                  (seq i remaining),
         Some all).
Proof.
  induction remaining as [|remaining IH]; intros i acc Hok.
  - exists acc. reflexivity.
  - rewrite extractLoop_step. cbv zeta.
    destruct (Hok i ltac:(lia)) as (page & ps & -> & ->).
    destruct (IH (S i) (acc ++ [ps])) as [all Hall].
    { intros j Hj. apply Hok. lia. }
    rewrite Hall. exists all. reflexivity.
Qed.

Lemma convertPdfToWord_inv (pdf : PDFDocumentProxy) (onProgress : bool)
    (trace : list Event) (doc : Document) :
  convertPdfToWord pdf onProgress = (trace, Some doc) ->
  exists t all,
    extractLoop pdf onProgress 1 (numPages pdf) [] = (t, Some all)
    /\ doc = {| sections := [{| section_children := assemble all |}] |}.
Proof.
  unfold convertPdfToWord, bind, callOnProgress, emit, ret.
  destruct (extractLoop pdf onProgress 1 (numPages pdf) []) as [t [all|]];
    [|discriminate].
  destruct onProgress; intro H; injection H as _ <-; eauto.
Qed.

(** C7. When every page of an N-page document is delivered and read, a
    supplied progress callback is called N times with stage "extracting",
    for the pages 1, 2, ..., N in this order, each time with
    [totalPages] = N and right before the request for that page, and then
    once with stage "generating"; it is called at no other time, and the
    conversion returns a document. *)
Theorem convertPdfToWord_progress (pdf : PDFDocumentProxy) :
  (forall i, (1 <= i <= numPages pdf)%nat ->
     exists page paragraphs,
       getPage pdf i = Some page /\ extractPageText page = Some paragraphs) ->
  exists doc,
    convertPdfToWord pdf true
    = (flat_map (fun i =>
                   [ProgressCall {| currentPage := i;
                                    totalPages := numPages pdf;
                                    stage := extracting |};
                    GetPageCall i])
                (seq 1 (numPages pdf))
       ++ [ProgressCall {| currentPage := numPages pdf;
                           totalPages := numPages pdf;
                           stage := generating |}],
       Some doc)
    /\ progressCalls (fst (convertPdfToWord pdf true))
       = map (fun i => {| currentPage := i; totalPages := numPages pdf;
                          stage := extracting |})
             (seq 1 (numPages pdf))
         ++ [{| currentPage := numPages pdf; totalPages := numPages pdf;
                stage := generating |}].
Proof.
  intro Hok.
  destruct (@extractLoop_trace pdf (numPages pdf) 1 []) as [all Hall].
  { intros j Hj. apply Hok. lia. }
  exists {| sections := [{| section_children := assemble all |}] |}.
  assert (Hrun : convertPdfToWord pdf true
    = (flat_map (fun i => [ProgressCall (extractingProgress pdf i);
                           GetPageCall i])
                (seq 1 (numPages pdf))
       ++ [ProgressCall (generatingProgress pdf)],
       Some {| sections := [{| section_children := assemble all |}] |})).
  { unfold convertPdfToWord, bind. rewrite Hall.
    cbn [callOnProgress emit ret app]. reflexivity. }
  split; [exact Hrun|].
  rewrite Hrun. cbn [fst]. unfold progressCalls.
  rewrite flat_map_app. cbn [flat_map app]. f_equal.
  clear Hall Hrun.
  induction (seq 1 (numPages pdf)) as [|i l IH]; [reflexivity|].
  cbn [flat_map map app]. now rewrite IH.
Qed.

Lemma convertPdfToWord_progress_witness :
  exists doc,
    convertPdfToWord
      (mkPdf [mkPage 100 [mkItem "Hello" 0 90 None; mkItem "world" 40 90 None];
              mkPage 100 []]) true
    = ([ProgressCall {| currentPage := 1; totalPages := 2;
                        stage := extracting |};
        GetPageCall 1;
        ProgressCall {| currentPage := 2; totalPages := 2;
                        stage := extracting |};
        GetPageCall 2;
        ProgressCall {| currentPage := 2; totalPages := 2;
                        stage := generating |}],
       Some doc).
Proof.
  destruct (@convertPdfToWord_progress
              (mkPdf [mkPage 100 [mkItem "Hello" 0 90 None;
                                  mkItem "world" 40 90 None];
                      mkPage 100 []])) as [doc [Hrun _]].
  - intros i Hi. cbn in Hi.
    assert (Hcases : i = 1%nat \/ i = 2%nat) by lia.
    destruct Hcases as [-> | ->]; do 2 eexists; split; reflexivity.
  - exists doc. exact Hrun.
Defined.

(** ** convertPdfToWord: document assembly *)

Lemma fold_left_push (texts : list jsstring) :
  forall acc,
    fold_left (fun c text => c ++ [textParagraph text]) texts acc
    = acc ++ map textParagraph texts.
Proof.
  induction texts as [|t texts IH]; intro acc; cbn [fold_left map].
  - now rewrite app_nil_r.
  - rewrite IH. now rewrite <- app_assoc.
Qed.

Lemma assembleLoop_blocks (len : nat) (pages : list (list jsstring)) :
  forall pageIdx acc,
    len = (pageIdx + length pages)%nat ->
    assembleLoop len pageIdx pages acc
    = acc ++ intercalate [pageBreakParagraph]
               (mapFrom blocksOfPage pageIdx pages).
Proof.
  induction pages as [|ps pages IH]; intros pageIdx acc Hlen.
  - cbn. now rewrite app_nil_r.
  - cbn [assembleLoop mapFrom intercalate].
    assert (Hblocks :
      match ps with
      | [] => acc ++ [emptyPageNote pageIdx]
      | _ :: _ => fold_left (fun c text => c ++ [textParagraph text]) ps acc
      end = acc ++ blocksOfPage pageIdx ps).
    { destruct ps as [|p ps']; [reflexivity|]. now rewrite fold_left_push. }
    rewrite Hblocks. cbn [length] in Hlen.
    destruct pages as [|ps' pages'].
    + cbn [length] in Hlen.
      replace (pageIdx <? len - 1)%nat with false
        by (symmetry; apply Nat.ltb_ge; lia).
      reflexivity.
    + replace (pageIdx <? len - 1)%nat with true
        by (symmetry; apply Nat.ltb_lt; cbn [length] in Hlen; lia).
      rewrite IH by lia.
      cbn [mapFrom]. now rewrite <- !app_assoc.
Qed.

Lemma assemble_blocks (allPageTexts : list (list jsstring)) :
  assemble allPageTexts
  = intercalate [pageBreakParagraph] (mapFrom blocksOfPage 0 allPageTexts).
Proof. unfold assemble. now rewrite assembleLoop_blocks. Qed.

Lemma mapFrom_length {A B} (f : nat -> A -> B) (l : list A) :
  forall i, length (mapFrom f i l) = length l.
Proof. induction l; intro i; cbn; [reflexivity | now rewrite IHl]. Qed.

Lemma mapFrom_nth_error {A B} (f : nat -> A -> B) (l : list A) :
  forall i k, nth_error (mapFrom f i l) k
              = option_map (f (i + k)%nat) (nth_error l k).
Proof.
  induction l as [|a l IH]; intros i [|k]; cbn; try reflexivity.
  - now rewrite Nat.add_0_r.
  - rewrite IH. now rewrite Nat.add_succ_r.
Qed.

Lemma blocksOfPage_no_break (pageIdx : nat) (paragraphs : list jsstring) :
  Forall (fun p => isPageBreak p = false) (blocksOfPage pageIdx paragraphs).
Proof.
  destruct paragraphs as [|t ts]; cbn [blocksOfPage].
  - repeat constructor.
  - apply Forall_map, Forall_forall. reflexivity.
Qed.

Lemma filter_none (A : Type) (f : A -> bool) (l : list A) :
  Forall (fun a => f a = false) l -> filter f l = [].
Proof.
  induction 1 as [|a l Ha _ IH]; cbn; [reflexivity|]. now rewrite Ha.
Qed.

Lemma countPageBreaks_intercalate (groups : list (list Paragraph)) :
  Forall (Forall (fun p => isPageBreak p = false)) groups ->
  countPageBreaks (intercalate [pageBreakParagraph] groups)
  = (length groups - 1)%nat.
Proof.
  unfold countPageBreaks.
  induction 1 as [|g rest Hg Hrest IH]; [reflexivity|].
  cbn [intercalate]. destruct rest as [|g' rest'].
  - now rewrite (filter_none _ Hg).
  - rewrite !filter_app, !length_app, (filter_none _ Hg), IH.
    cbn. lia.
Qed.

(** C5. In the document of a conversion of an N-page input, N >= 1, the
    blocks are the N pages' groups of blocks, none of which holds a page
    break, with one page-break paragraph between each group and the next
    and none after the last; the page breaks number N - 1. *)
Theorem convertPdfToWord_page_breaks
    (pdf : PDFDocumentProxy) (onProgress : bool)
    (trace : list Event) (doc : Document) :
  convertPdfToWord pdf onProgress = (trace, Some doc) ->
  (1 <= numPages pdf)%nat ->
  exists blocks pageGroups,
    sections doc = [{| section_children := blocks |}]
    /\ length pageGroups = numPages pdf
    /\ Forall (Forall (fun p => isPageBreak p = false)) pageGroups
    /\ blocks = intercalate [pageBreakParagraph] pageGroups
    /\ countPageBreaks blocks = (numPages pdf - 1)%nat.
Proof.
  intros Hrun Hpages.
  destruct (convertPdfToWord_inv _ _ Hrun) as (t & all & Hloop & ->).
  destruct (extractLoop_pages _ _ _ _ _ Hloop) as (texts & -> & Hlen & _).
  cbn [app].
  assert (Hgroups : Forall (Forall (fun p => isPageBreak p = false))
                           (mapFrom blocksOfPage 0 texts)).
  { clear. generalize 0%nat.
    induction texts as [|ps texts IH]; intro i; cbn [mapFrom]; constructor.
    - apply blocksOfPage_no_break.
    - apply IH. }
  exists (assemble texts), (mapFrom blocksOfPage 0 texts).
  repeat split.
  - now rewrite mapFrom_length.
  - exact Hgroups.
  - apply assemble_blocks.
  - rewrite assemble_blocks, (countPageBreaks_intercalate Hgroups).
    now rewrite mapFrom_length, Hlen.
Qed.

Lemma convertPdfToWord_page_breaks_witness :
  exists blocks,
    sections (
      {| sections :=
           [{| section_children :=
                 [textParagraph (js "Hello world"); pageBreakParagraph;
                  emptyPageNote 1] |}] |})
    = [{| section_children := blocks |}]
    /\ countPageBreaks blocks = 1%nat.
Proof.
  destruct (@convertPdfToWord_page_breaks twoPages false
              [GetPageCall 1; GetPageCall 2]
              {| sections :=
                   [{| section_children :=
                         [textParagraph (js "Hello world"); pageBreakParagraph;
                          emptyPageNote 1] |}] |})
    as (blocks & groups & Hdoc & _ & _ & _ & Hcount).
  - reflexivity.
  - cbn. lia.
  - exists blocks. split; [exact Hdoc | exact Hcount].
Defined.

(** C6. In the document of a conversion, with the pages' paragraph lists
    as [extractPageText] returned them, the group of blocks of page k + 1
    is exactly one placeholder paragraph - the italic run
    "[Strona k+1 - brak tekstu]" - when the page's list is empty, and
    otherwise one text paragraph per paragraph of the list, in order,
    each holding one plain run with that paragraph's text and a spacing
    of 120 after it; a text paragraph is never a placeholder. The groups
    are separated by page-break paragraphs. *)
Theorem convertPdfToWord_page_blocks
    (pdf : PDFDocumentProxy) (onProgress : bool)
    (trace : list Event) (doc : Document) :
  convertPdfToWord pdf onProgress = (trace, Some doc) ->
  exists allPageTexts pageGroups,
    length allPageTexts = numPages pdf
    /\ (forall k paragraphs,
          nth_error allPageTexts k = Some paragraphs ->
          exists page, getPage pdf (k + 1) = Some page
                       /\ extractPageText page = Some paragraphs)
    /\ sections doc
       = [{| section_children :=
               intercalate [{| children := [PageBreak]; spacing := None |}]
                           pageGroups |}]
    /\ length pageGroups = numPages pdf
    /\ (forall k paragraphs,
          nth_error allPageTexts k = Some paragraphs ->
          exists group,
            nth_error pageGroups k = Some group
            /\ (paragraphs = [] ->
                group
                = [{| children :=
                        [TextRunChild
                           {| run_text := js "[Strona " ++ ofNat (k + 1)
                                          ++ js " - brak tekstu]";
                              italics := Some true;
                              color := Some (js "999999") |}];
                      spacing := None |}])
            /\ (paragraphs <> [] ->
                group
                = map (fun text =>
                         {| children :=
                              [TextRunChild {| run_text := text;
                                               italics := None;
                                               color := None |}];
                            spacing := Some {| after := 120 |} |})
                      paragraphs
                /\ map (fun block =>
                          match children block with
                          | [TextRunChild r] => Some (run_text r)
                          | _ => None
                          end) group
                   = map Some paragraphs
                /\ forall n, ~ In (placeholder n) group)).
Proof.
  intro Hrun.
  destruct (convertPdfToWord_inv _ _ Hrun) as (t & all & Hloop & ->).
  destruct (extractLoop_pages _ _ _ _ _ Hloop) as (texts & -> & Hlen & Hnth).
  cbn [app].
  exists texts, (mapFrom blocksOfPage 0 texts).
  split; [exact Hlen|].
  split; [intros k ps Hk; rewrite Nat.add_comm; now apply Hnth|].
  split; [cbn [sections]; now rewrite assemble_blocks|].
  split; [now rewrite mapFrom_length|].
  intros k ps Hk. exists (blocksOfPage k ps).
  split; [rewrite mapFrom_nth_error, Hk; reflexivity|].
  split.
  - intros ->. reflexivity.
  - intro Hne. destruct ps as [|p ps]; [now elim Hne|].
    split; [reflexivity|]. split.
    + cbn [blocksOfPage]. rewrite map_map. reflexivity.
    + intros n Hin. cbn [blocksOfPage] in Hin. apply in_map_iff in Hin.
      destruct Hin as (text & Heq & _). discriminate Heq.
Qed.

Lemma convertPdfToWord_page_blocks_witness :
  exists pageGroups,
    [{| section_children :=
          [{| children :=
                [TextRunChild {| run_text := js "Hello world";
                                 italics := None; color := None |}];
              spacing := Some {| after := 120 |} |};
           {| children := [PageBreak]; spacing := None |};
           {| children :=
                [TextRunChild {| run_text := js "[Strona 2 - brak tekstu]";
                                 italics := Some true;
                                 color := Some (js "999999") |}];
              spacing := None |}] |}]
    = [{| section_children :=
            intercalate [{| children := [PageBreak]; spacing := None |}]
                        pageGroups |}]
    /\ length pageGroups = 2%nat.
Proof.
  destruct (@convertPdfToWord_page_blocks twoPages false
              [GetPageCall 1; GetPageCall 2]
              {| sections :=
                   [{| section_children :=
                         [{| children :=
                               [TextRunChild
                                  {| run_text := js "Hello world";
                                     italics := None; color := None |}];
                             spacing := Some {| after := 120 |} |};
                          {| children := [PageBreak]; spacing := None |};
                          {| children :=
                               [TextRunChild
                                  {| run_text :=
                                       js "[Strona 2 - brak tekstu]";
                                     italics := Some true;
                                     color := Some (js "999999") |}];
                             spacing := None |}] |}] |})
    as (texts & groups & _ & _ & Hdoc & Hlen & _).
  - reflexivity.
  - exists groups. split; [exact Hdoc | exact Hlen].
Defined.

(** The end-to-end scenario of the specification: page 1 reads
    "Hello world" on one line, page 2 has no runs. *)
Example convertPdfToWord_two_pages :
  convertPdfToWord twoPages true
  = ([ProgressCall {| currentPage := 1; totalPages := 2;
                      stage := extracting |};
      GetPageCall 1;
      ProgressCall {| currentPage := 2; totalPages := 2;
                      stage := extracting |};
      GetPageCall 2;
      ProgressCall {| currentPage := 2; totalPages := 2;
                      stage := generating |}],
     Some {| sections :=
               [{| section_children :=
                     [textParagraph (js "Hello world");
                      pageBreakParagraph;
                      placeholder 2] |}] |}).
Proof. reflexivity. Qed.

(** * Further properties of the converter *)

(** ** Clustering keeps the lines apart and loses no run *)

Lemma apart_sym (a b : Q) : apart a b -> apart b a.
Proof. unfold apart. now rewrite Qabs_Qminus. Qed.

Lemma ForallOrdPairs_snoc (A : Type) (R : A -> A -> Prop) (l : list A) (a : A) :
  ForallOrdPairs R l -> Forall (fun b => R b a) l ->
  ForallOrdPairs R (l ++ [a]).
Proof.
  induction 1 as [|b l Hb Hl IH]; intro Hall; cbn [app].
  - constructor; constructor.
  - inversion Hall as [|? ? Hba Hrest]; subst.
    constructor; [|now apply IH].
    apply Forall_app. split; [assumption|]. now constructor.
Qed.

Lemma ForallOrdPairs_perm (A : Type) (R : A -> A -> Prop) :
  (forall a b, R a b -> R b a) ->
  forall l l', Permutation l l' ->
               ForallOrdPairs R l -> ForallOrdPairs R l'.
Proof.
  intros Hsym l l' Hperm.
  induction Hperm as [|a l l' Hperm IH|a b l|l l' l'' _ IH1 _ IH2]; intro H.
  - assumption.
  - inversion H as [|? ? Ha Hl]; subst.
    constructor; [|now apply IH].
    now apply (Permutation_Forall Hperm).
  - inversion H as [|? ? Hb Hl]; subst.
    inversion Hl as [|? ? Ha Hl']; subst.
    inversion Hb as [|? ? Hba Hb']; subst.
    constructor.
    + constructor; [now apply Hsym | assumption].
    + now constructor.
  - auto.
Qed.

Lemma pushToLine_none_apart (item : Positioned) (lines : list TextLine) :
  pushToLine lines item = None ->
  Forall (fun b => apart b (p_y item)) (map y lines).
Proof.
  induction lines as [|l lines IH]; intro H; cbn [map]; [constructor|].
  cbn [pushToLine] in H.
  destruct (Qltb (Qabs (y l - p_y item)) LINE_THRESHOLD) eqn:E;
    [discriminate|].
  apply Qltb_ge in E. constructor; [exact E|].
  apply IH. now destruct (pushToLine lines item).
Qed.

Lemma addItem_apart (lines : list TextLine) (item : Positioned) :
  ForallOrdPairs apart (map y lines) ->
  ForallOrdPairs apart (map y (addItem lines item)).
Proof.
  intro H. unfold addItem.
  destruct (pushToLine lines item) as [lines'|] eqn:E.
  - now rewrite (pushToLine_keeps_ys _ _ E).
  - rewrite map_app. cbn [map y].
    apply ForallOrdPairs_snoc; [assumption|].
    now apply pushToLine_none_apart.
Qed.

Lemma groupLines_apart (positioned : list Positioned) :
  ForallOrdPairs apart (map y (groupLines positioned)).
Proof.
  unfold groupLines.
  assert (H : forall lines, ForallOrdPairs apart (map y lines) ->
            ForallOrdPairs apart (map y (fold_left addItem positioned lines))).
  { induction positioned as [|item ps IH]; intros lines Hl; cbn [fold_left].
    - assumption.
    - apply IH. now apply addItem_apart. }
  apply H. constructor.
Qed.

Lemma sortedLines_ys (lines : list TextLine) :
  map y (sortedLines lines) = map y (sort (fun a b => y a - y b) lines).
Proof.
  unfold sortedLines. rewrite map_map. reflexivity.
Qed.

Lemma StronglySorted_map_y (lines : list TextLine) :
  StronglySorted (fun a b => (y a <= y b)%Q) lines ->
  StronglySorted Qle (map y lines).
Proof.
  induction 1 as [|l ls _ IH Hall]; cbn [map]; constructor; [assumption|].
  apply Forall_map. exact Hall.
Qed.

Lemma sorted_apart_gap (ys : list Q) :
  StronglySorted Qle ys -> ForallOrdPairs apart ys ->
  StronglySorted (fun a b => (a + 3 <= b)%Q) ys.
Proof.
  induction 1 as [|a ys _ IH Hle]; intro Hap; [constructor|].
  inversion Hap as [|? ? Ha Hrest]; subst.
  constructor; [now apply IH|].
  apply Forall_forall. intros b Hb.
  pose proof (proj1 (Forall_forall _ _) Hle b Hb) as H1.
  pose proof (proj1 (Forall_forall _ _) Ha b Hb) as H2.
  unfold apart in H2.
  assert (Hneg : (a - b <= 0)%Q) by lra.
  rewrite (Qabs_neg _ Hneg) in H2. lra.
Qed.

(** X1. The representatives of the clustered lines are pairwise at least
    3 apart, so after the sort each line lies at least 3 below the line
    before it: no two lines of a page share a representative Y. *)
Theorem groupLines_lines_apart (positioned : list Positioned) :
  ForallOrdPairs (fun a b => (3 <= Qabs (a - b))%Q)
                 (map y (groupLines positioned))
  /\ StronglySorted (fun a b => (a + 3 <= b)%Q)
                    (map y (sortedLines (groupLines positioned))).
Proof.
  split; [apply groupLines_apart|].
  apply sorted_apart_gap.
  - apply StronglySorted_map_y, sortedLines_sorted.
  - rewrite sortedLines_ys.
    apply (ForallOrdPairs_perm apart_sym)
      with (l := map y (groupLines positioned)).
    + apply Permutation_map. symmetry. apply (sort_perm y).
    + apply groupLines_apart.
Qed.

Lemma pushToLine_items (item : Positioned) (lines : list TextLine) :
  forall lines', pushToLine lines item = Some lines' ->
    Permutation (flat_map line_items lines')
                (flat_map line_items lines ++ [lineItemOf item]).
Proof.
  induction lines as [|l lines IH]; intros lines' H; cbn [pushToLine] in H;
    [discriminate|].
  destruct (Qltb (Qabs (y l - p_y item)) LINE_THRESHOLD).
  - injection H as <-. cbn [flat_map line_items].
    rewrite <- !app_assoc. apply Permutation_app_head.
    apply Permutation_app_comm.
  - destruct (pushToLine lines item) as [r|]; [|discriminate].
    injection H as <-. cbn [flat_map]. rewrite <- app_assoc.
    apply Permutation_app_head. now apply IH.
Qed.

Lemma addItem_items (lines : list TextLine) (item : Positioned) :
  Permutation (flat_map line_items (addItem lines item))
              (flat_map line_items lines ++ [lineItemOf item]).
Proof.
  unfold addItem. destruct (pushToLine lines item) as [lines'|] eqn:E.
  - now apply pushToLine_items.
  - rewrite flat_map_app. cbn. reflexivity.
Qed.

Lemma fold_addItem_items (positioned : list Positioned) :
  forall lines,
    Permutation (flat_map line_items (fold_left addItem positioned lines))
                (flat_map line_items lines ++ map lineItemOf positioned).
Proof.
  induction positioned as [|item ps IH]; intro lines; cbn [fold_left map].
  - now rewrite app_nil_r.
  - rewrite IH, addItem_items, <- app_assoc. reflexivity.
Qed.

Lemma sortedLines_items (lines : list TextLine) :
  Permutation (flat_map line_items (sortedLines lines))
              (flat_map line_items lines).
Proof.
  unfold sortedLines.
  transitivity (flat_map line_items (sort (fun a b => y a - y b) lines)).
  - induction (sort (fun a b => y a - y b) lines) as [|l ls IH];
      cbn [map flat_map]; [reflexivity|].
    apply Permutation_app; [|exact IH].
    cbn [sortLineItems line_items]. apply (sort_perm x).
  - apply Permutation_flat_map. apply (sort_perm y).
Qed.

Lemma pageLines_runs (pageHeight : Q) (its : list PDFTextItem) :
  Permutation
    (flat_map line_items (pageLines pageHeight its))
    (map (fun item => {| x := translateX (transform item);
                         text := str item |})
         (filter keepItem its)).
Proof.
  unfold pageLines. rewrite sortedLines_items.
  unfold groupLines. rewrite fold_addItem_items. cbn [flat_map app].
  unfold positionedItems. rewrite map_map. reflexivity.
Qed.

(** X2. Clustering and sorting neither lose nor duplicate a run: the runs
    of the sorted lines of a page are, up to order, exactly the items the
    filter kept, each with its X and its text. *)
Theorem pageLines_keep_runs (pageHeight : Q) (its : list PDFTextItem) :
  Permutation
    (flat_map line_items (pageLines pageHeight its))
    (map (fun item => {| x := translateX (transform item);
                         text := str item |})
         (filter keepItem its))
  /\ length (flat_map line_items (pageLines pageHeight its))
     = length (filter keepItem its).
Proof.
  split; [apply pageLines_runs|].
  rewrite (Permutation_length (pageLines_runs pageHeight its)).
  apply length_map.
Qed.

(** ** Paragraph formation keeps every line text *)

Lemma join_cons_flat (sep a : jsstring) (l : list jsstring) :
  join sep (a :: l) = a ++ flat_map (fun t => sep ++ t) l.
Proof.
  revert a. induction l as [|b l IH]; intro a.
  - cbn. now rewrite app_nil_r.
  - change (join sep (a :: b :: l)) with (a ++ sep ++ join sep (b :: l)).
    rewrite IH. cbn [flat_map]. now rewrite <- app_assoc.
Qed.

Lemma join_snoc (sep : jsstring) (l : list jsstring) (b : jsstring) :
  l <> [] -> join sep (l ++ [b]) = join sep l ++ sep ++ b.
Proof.
  destruct l as [|a l]; [now intros []|]. intros _. cbn [app].
  rewrite (join_cons_flat sep a (l ++ [b])), (join_cons_flat sep a l).
  rewrite flat_map_app. cbn [flat_map].
  now rewrite app_nil_r, <- app_assoc.
Qed.

Lemma join_last_app (sep : jsstring) (l : list jsstring) (a b : jsstring) :
  join sep (l ++ [a ++ b]) = join sep (l ++ [a]) ++ b.
Proof.
  destruct l as [|c l]; [reflexivity|].
  cbn [app].
  rewrite (join_cons_flat sep c (l ++ [a ++ b])),
          (join_cons_flat sep c (l ++ [a])).
  rewrite !flat_map_app. cbn [flat_map].
  now rewrite !app_nil_r, <- !app_assoc.
Qed.

Lemma paragraphLoop_exhausted (lineTexts : list jsstring)
    (rest : list TextLine) :
  forall i prev paragraphs currentParagraph,
    (length lineTexts <= i)%nat ->
    paragraphLoop lineTexts i prev rest paragraphs currentParagraph
    = (paragraphs, currentParagraph).
Proof.
  induction rest as [|line rest IH]; intros i prev ps cur Hi;
    cbn [paragraphLoop]; [reflexivity|].
  assert (Hnone : nth_error lineTexts i = None)
    by (now apply nth_error_None).
  rewrite Hnone. apply IH. lia.
Qed.

Lemma paragraphLoop_keeps_texts (rest : list TextLine) :
  forall pre suffix prev paragraphs currentParagraph,
    (length suffix <= length rest)%nat ->
    Forall (fun t => t <> []) suffix ->
    let r := paragraphLoop (pre ++ suffix) (length pre) prev rest
               paragraphs currentParagraph in
    join (js " ") (fst r ++ [snd r])
    = join (js " ") (paragraphs ++ [currentParagraph])
      ++ flat_map (fun t => js " " ++ t) suffix.
Proof.
  induction rest as [|line rest IH];
    intros pre suffix prev ps cur Hlen Hne; cbv zeta.
  - destruct suffix; [|cbn in Hlen; lia].
    cbn [paragraphLoop fst snd flat_map]. now rewrite app_nil_r.
  - destruct suffix as [|t suffix].
    + rewrite (app_nil_r pre).
      rewrite paragraphLoop_exhausted by apply Nat.le_refl.
      cbn [fst snd flat_map]. now rewrite app_nil_r.
    + cbn [paragraphLoop]. rewrite nth_error_middle.
      inversion Hne as [|? ? Ht Hrest]; subst.
      assert (Hlen' : (length suffix <= length rest)%nat)
        by (cbn [length] in Hlen; lia).
      replace (pre ++ t :: suffix) with ((pre ++ [t]) ++ suffix)
        by (now rewrite <- app_assoc).
      replace (S (length pre)) with (length (pre ++ [t]))
        by (rewrite length_app; cbn; lia).
      destruct t as [|c s]; [now elim Ht|].
      cbn [flat_map].
      destruct (Qltb PARAGRAPH_GAP (y line - y prev)).
      * rewrite (IH _ suffix line (ps ++ [cur]) (c :: s) Hlen' Hrest).
        rewrite join_snoc by (destruct ps; discriminate).
        now rewrite <- !app_assoc.
      * rewrite (IH _ suffix line ps (cur ++ js " " ++ c :: s) Hlen' Hrest).
        rewrite join_last_app. now rewrite <- !app_assoc.
Qed.

Lemma lineTextsOf_length (lines : list TextLine) :
  (length (lineTextsOf lines) <= length lines)%nat.
Proof.
  unfold lineTextsOf.
  rewrite <- (length_map lineText lines). apply filter_length_le.
Qed.

Lemma pageParagraphs_join (pageHeight : Q) (its : list PDFTextItem) :
  join (js " ") (pageParagraphs pageHeight its)
  = join (js " ") (lineTextsOf (pageLines pageHeight its)).
Proof.
  rewrite pageParagraphs_formParagraphs.
  pose proof (lineTextsOf_length (pageLines pageHeight its)) as Hlen.
  pose proof (lineTextsOf_nonempty (pageLines pageHeight its)) as Hne.
  destruct (lineTextsOf (pageLines pageHeight its)) as [|first more];
    [reflexivity|].
  destruct (pageLines pageHeight its) as [|l0 rest];
    [cbn [length] in Hlen; inversion Hlen|].
  inversion Hne as [|? ? Hfirst Hmore]; subst.
  unfold formParagraphs.
  set (r := paragraphLoop (first :: more) 1 l0 rest [] first).
  assert (Hloop : join (js " ") (fst r ++ [snd r])
                  = join (js " ") ([] ++ [first])
                    ++ flat_map (fun t => js " " ++ t) more)
    by exact (@paragraphLoop_keeps_texts rest [first] more l0 [] first
                (le_S_n _ _ Hlen) Hmore).
  assert (Hcur : snd r <> [])
    by exact (proj2 (@paragraphLoop_nonempty (first :: more) rest 1 l0
                       (@nil jsstring) first (Forall_nil _) Hfirst)).
  destruct r as [ps cur]. cbn [fst snd] in Hloop, Hcur.
  destruct cur; [now elim Hcur|]. cbn [truthy].
  rewrite Hloop. now rewrite join_cons_flat.
Qed.

(** X3. Paragraph formation drops and reorders nothing: the paragraphs of
    a page joined with single spaces are the non-empty line texts of the
    page, top to bottom, joined with single spaces - also on pages where
    lines of empty text shift the gaps. *)
Theorem pageParagraphs_keep_line_texts
    (pageHeight : Q) (its : list PDFTextItem) :
  join (js " ") (pageParagraphs pageHeight its)
  = join (js " ") (lineTextsOf (pageLines pageHeight its)).
Proof. apply pageParagraphs_join. Qed.

(** ** Reading order *)

Lemma groupLines_nonempty_page (pageHeight : Q) (its : list PDFTextItem)
    (l : TextLine) (ls : list TextLine) :
  groupLines (positionedItems pageHeight its) = l :: ls ->
  pageParagraphs pageHeight its
  = formParagraphs (sortedLines (l :: ls))
                   (lineTextsOf (sortedLines (l :: ls))).
Proof.
  intro H. rewrite pageParagraphs_formParagraphs. unfold pageLines.
  now rewrite H.
Qed.

(** C3. The result of [extractPageText] is formed from lines that are
    ascending by representative Y, each with its runs ascending by X;
    they are the clusters, reordered, each with the same representative
    and the same runs; the text of a line is its runs' texts joined with
    single spaces, and the page reads these texts from top to bottom. In
    particular a page whose runs cluster into one line holding the runs
    (30, "c"), (10, "a"), (20, "b"), in whatever order they arrived,
    reads "a b c"; and of two one-run lines the upper one comes first in
    the result also when it arrived second. *)
Theorem sortedLines_order :
  (forall (page : PDFPageProxy) (textContent : PDFTextContent),
      getTextContent page = Some textContent ->
      exists lines : list TextLine,
        StronglySorted (fun a b => (y a <= y b)%Q) lines
        /\ Forall (fun line => StronglySorted (fun a b => (x a <= x b)%Q)
                                 (line_items line)) lines
        /\ (exists reordered,
               Permutation reordered
                 (groupLines
                    (positionedItems (height (getViewport page 1))
                                     (items textContent)))
               /\ Forall2 (fun line cluster =>
                             y line = y cluster
                             /\ Permutation (line_items line)
                                            (line_items cluster))
                          lines reordered)
        /\ extractPageText page
           = Some (formParagraphs lines
                     (filter (fun t => (0 <? length t)%nat)
                        (map (fun line =>
                                trim (join (js " ")
                                        (map text (line_items line))))
                             lines)))
        /\ (forall paragraphs,
               extractPageText page = Some paragraphs ->
               join (js " ") paragraphs
               = join (js " ")
                   (filter (fun t => (0 <? length t)%nat)
                      (map (fun line =>
                              trim (join (js " ")
                                      (map text (line_items line))))
                           lines))))
  /\ (forall (page : PDFPageProxy) (textContent : PDFTextContent)
             (lineY : Q) (runs : list LineItem),
         getTextContent page = Some textContent ->
         groupLines (positionedItems (height (getViewport page 1))
                                     (items textContent))
         = [{| y := lineY; line_items := runs |}] ->
         Permutation runs [ {| x := 30; text := js "c" |};
                            {| x := 10; text := js "a" |};
                            {| x := 20; text := js "b" |} ] ->
         extractPageText page = Some [js "a b c"])
  /\ (forall (page : PDFPageProxy) (textContent : PDFTextContent)
             (lowerY upperY : Q) (lowerRun upperRun : LineItem),
         getTextContent page = Some textContent ->
         groupLines (positionedItems (height (getViewport page 1))
                                     (items textContent))
         = [{| y := lowerY; line_items := [lowerRun] |};
            {| y := upperY; line_items := [upperRun] |}] ->
         (upperY < lowerY)%Q ->
         trim (text lowerRun) <> [] ->
         trim (text upperRun) <> [] ->
         extractPageText page
         = Some (if Qlt_le_dec 10 (lowerY - upperY)
                 then [trim (text upperRun); trim (text lowerRun)]
                 else [trim (text upperRun) ++ js " "
                       ++ trim (text lowerRun)])).
Proof.
  split; [|split].
  - intros page tc Htc.
    exists (pageLines (height (getViewport page 1)) (items tc)).
    assert (Hrun : extractPageText page
                   = Some (formParagraphs
                             (pageLines (height (getViewport page 1))
                                        (items tc))
                             (lineTextsOf
                                (pageLines (height (getViewport page 1))
                                           (items tc))))).
    { unfold extractPageText. rewrite Htc. cbv zeta. f_equal.
      apply pageParagraphs_formParagraphs. }
    split; [apply sortedLines_sorted|].
    split; [apply sortedLines_items_sorted|].
    split; [apply sortedLines_content|].
    split; [exact Hrun|].
    intros paragraphs Hps. rewrite Hrun in Hps. injection Hps as <-.
    rewrite <- pageParagraphs_formParagraphs.
    apply pageParagraphs_join.
  - intros page tc lineY runs Htc Hgroup Hperm.
    unfold extractPageText. rewrite Htc. cbv zeta. f_equal.
    rewrite (groupLines_nonempty_page _ _ Hgroup).
    unfold sortedLines. cbn [sort fold_right insertSorted map].
    unfold sortLineItems. cbn [y line_items].
    rewrite (three_runs_any_order Hperm). reflexivity.
  - intros page tc lowerY upperY lowerRun upperRun Htc Hgroup Hlt Hl Hu.
    unfold extractPageText. rewrite Htc. cbv zeta. f_equal.
    rewrite (groupLines_nonempty_page _ _ Hgroup).
    assert (Hcmp : Qle_bool (lowerY - upperY) 0 = false).
    { destruct (Qle_bool (lowerY - upperY) 0) eqn:E; [|reflexivity].
      apply Qle_bool_iff in E. lra. }
    assert (Hsorted :
      sortedLines [{| y := lowerY; line_items := [lowerRun] |};
                   {| y := upperY; line_items := [upperRun] |}]
      = [{| y := upperY; line_items := [upperRun] |};
         {| y := lowerY; line_items := [lowerRun] |}]).
    { unfold sortedLines. cbn [sort fold_right insertSorted y].
      rewrite Hcmp. reflexivity. }
    rewrite Hsorted.
    assert (Htexts :
      lineTextsOf [{| y := upperY; line_items := [upperRun] |};
                   {| y := lowerY; line_items := [lowerRun] |}]
      = [trim (text upperRun); trim (text lowerRun)]).
    { unfold lineTextsOf, lineText.
      cbn [map line_items join filter].
      rewrite (proj2 (length_pos_nonempty _) Hu).
      now rewrite (proj2 (length_pos_nonempty _) Hl). }
    rewrite Htexts.
    destruct (trim (text lowerRun)) as [|cl sl]; [now elim Hl|].
    unfold formParagraphs. cbn [paragraphLoop nth_error y].
    unfold PARAGRAPH_GAP.
    destruct (trim (text upperRun)) as [|cu su]; [now elim Hu|].
    destruct (Qlt_le_dec 10 (lowerY - upperY)) as [Hgt|Hle].
    + apply Qltb_lt in Hgt. rewrite Hgt. reflexivity.
    + apply Qltb_ge in Hle. rewrite Hle. reflexivity.
Qed.

Lemma sortedLines_order_witness :
  extractPageText
    (mkPage 800 [mkItem "c" 30 700 None; mkItem "a" 10 700 None;
                 mkItem "b" 20 700 None])
  = Some [js "a b c"]
  /\ extractPageText
       (mkPage 800 [mkItem "world" 0 600 None; mkItem "Hello" 0 620 None])
     = Some [js "Hello"; js "world"].
Proof.
  split.
  - apply (proj1 (proj2 sortedLines_order)
             (mkPage 800 [mkItem "c" 30 700 None; mkItem "a" 10 700 None;
                          mkItem "b" 20 700 None])
             {| items := [mkItem "c" 30 700 None; mkItem "a" 10 700 None;
                          mkItem "b" 20 700 None] |}
             (1 * 800 - 700)%Q
             [ {| x := 30; text := js "c" |}; {| x := 10; text := js "a" |};
               {| x := 20; text := js "b" |} ]).
    + reflexivity.
    + reflexivity.
    + apply Permutation_refl.
  - apply (proj2 (proj2 sortedLines_order)
             (mkPage 800 [mkItem "world" 0 600 None;
                          mkItem "Hello" 0 620 None])
             {| items := [mkItem "world" 0 600 None;
                          mkItem "Hello" 0 620 None] |}
             (1 * 800 - 600)%Q (1 * 800 - 620)%Q
             {| x := 0; text := js "world" |}
             {| x := 0; text := js "Hello" |}).
    + reflexivity.
    + reflexivity.
    + reflexivity.
    + discriminate.
    + discriminate.
Defined.

(** ** Blank pages *)

Lemma trimStart_blank (s : jsstring) :
  trimStart s = [] <-> forallb isWhiteSpace s = true.
Proof.
  induction s as [|c s IH]; cbn [trimStart forallb]; [tauto|].
  destruct (isWhiteSpace c); cbn [andb]; [exact IH|].
  split; discriminate.
Qed.

Lemma trimStart_head (s : jsstring) (c : N) (r : jsstring) :
  trimStart s = c :: r -> isWhiteSpace c = false.
Proof.
  induction s as [|d s IH]; cbn [trimStart]; [discriminate|].
  destruct (isWhiteSpace d) eqn:E; [exact IH|].
  intro H. injection H as <- _. exact E.
Qed.

Lemma forallb_rev (A : Type) (f : A -> bool) (l : list A) :
  forallb f (rev l) = true -> forallb f l = true.
Proof.
  rewrite !forallb_forall. intros H a Ha. apply H. now apply in_rev in Ha.
Qed.

Lemma trim_blank (s : jsstring) :
  trim s = [] <-> forallb isWhiteSpace s = true.
Proof.
  unfold trim, trimEnd. split.
  - intro H.
    assert (H1 : trimStart (rev (trimStart s)) = []).
    { rewrite <- (rev_involutive (trimStart (rev (trimStart s)))), H.
      reflexivity. }
    apply trimStart_blank, forallb_rev in H1.
    destruct (trimStart s) as [|c r] eqn:E; [now apply trimStart_blank|].
    apply trimStart_head in E. cbn [forallb] in H1.
    rewrite E in H1. discriminate.
  - intro H. apply trimStart_blank in H. now rewrite H.
Qed.

Lemma join_blank (l : list jsstring) :
  Forall (fun t => forallb isWhiteSpace t = true) l ->
  forallb isWhiteSpace (join (js " ") l) = true.
Proof.
  destruct l as [|a l]; [reflexivity|]. intro H.
  inversion H as [|? ? Ha Hl]; subst.
  rewrite join_cons_flat, forallb_app, Ha. cbn [andb].
  clear H Ha. induction Hl as [|b l Hb _ IH]; [reflexivity|].
  cbn [flat_map]. rewrite !forallb_app, Hb, IH. reflexivity.
Qed.

(** X4. A page all of whose runs are blank gives no paragraph, also when
    some of the runs carry an end-of-line hint and so pass the filter. *)
Theorem extractPageText_blank_page
    (page : PDFPageProxy) (textContent : PDFTextContent) :
  getTextContent page = Some textContent ->
  (forall item, In item (items textContent) -> trim (str item) = []) ->
  extractPageText page = Some [].
Proof.
  intros Htc Hblank. unfold extractPageText. rewrite Htc. cbv zeta.
  f_equal. rewrite pageParagraphs_formParagraphs.
  set (lines := pageLines (height (getViewport page 1)) (items textContent)).
  assert (Htexts : lineTextsOf lines = []).
  { unfold lineTextsOf. apply filter_none.
    apply Forall_map, Forall_forall. intros line Hline.
    assert (Hl : lineText line = []).
    { unfold lineText. apply trim_blank, join_blank.
      apply Forall_map, Forall_forall. intros li Hli.
      assert (Hin : In li (flat_map line_items lines))
        by (apply in_flat_map; eauto).
      apply (Permutation_in _ (pageLines_runs _ _)) in Hin.
      apply in_map_iff in Hin. destruct Hin as (item & <- & Hitem).
      apply filter_In in Hitem. cbn [text].
      apply trim_blank, Hblank, Hitem. }
    now rewrite Hl. }
  rewrite Htexts. reflexivity.
Qed.

Lemma extractPageText_blank_page_witness :
  extractPageText
    (mkPage 100 [mkItem " " 0 90 (Some true); mkItem "" 0 40 (Some true)])
  = Some [].
Proof.
  apply (@extractPageText_blank_page
           (mkPage 100 [mkItem " " 0 90 (Some true);
                        mkItem "" 0 40 (Some true)])
           {| items := [mkItem " " 0 90 (Some true);
                        mkItem "" 0 40 (Some true)] |}).
  - reflexivity.
  - intros item [<-|[<-|[]]]; reflexivity.
Defined.

(** ** The orchestrator: failures *)

Lemma extractLoop_aborts (pdf : PDFDocumentProxy) (onProgress : bool)
    (remaining : nat) :
  forall i acc failing,
    (i <= failing < i + remaining)%nat ->
    (forall j, (i <= j < failing)%nat -> pageReads pdf j) ->
    pageFails pdf failing ->
    extractLoop pdf onProgress i remaining acc
    = (flat_map (pageCalls pdf onProgress) (seq i (failing - i + 1)), None).
Proof.
  induction remaining as [|remaining IH]; intros i acc k Hk Hok Hfail;
    [lia|].
  rewrite extractLoop_step. cbv zeta. fold (pageCalls pdf onProgress i).
  destruct (Nat.eq_dec i k) as [->|Hne].
  - replace (k - k + 1)%nat with 1%nat by lia.
    cbn [seq flat_map]. rewrite app_nil_r.
    destruct Hfail as [-> | (page & -> & ->)]; reflexivity.
  - destruct (Hok i ltac:(lia)) as (page & ps & -> & ->).
    rewrite (IH (S i) (acc ++ [ps]) k ltac:(lia)); [| |assumption].
    + replace (k - i + 1)%nat with (S (k - S i + 1)) by lia.
      reflexivity.
    + intros j Hj. apply Hok. lia.
Qed.

(** X5. The first page that is not delivered or not read aborts the
    conversion: no document is returned, the pages after it are never
    requested, and the "generating" progress call is never made. *)
Theorem convertPdfToWord_aborts_on_failure
    (pdf : PDFDocumentProxy) (onProgress : bool) (failing : nat) :
  (1 <= failing <= numPages pdf)%nat ->
  (forall j, (1 <= j < failing)%nat ->
     exists page paragraphs,
       getPage pdf j = Some page /\ extractPageText page = Some paragraphs) ->
  (getPage pdf failing = None
   \/ exists page, getPage pdf failing = Some page
                   /\ extractPageText page = None) ->
  convertPdfToWord pdf onProgress
  = (flat_map (fun i =>
                 (if onProgress
                  then [ProgressCall {| currentPage := i;
                                        totalPages := numPages pdf;
                                        stage := extracting |}]
                  else [])
                 ++ [GetPageCall i])
              (seq 1 failing),
     None).
Proof.
  intros Hk Hok Hfail.
  unfold convertPdfToWord, bind.
  rewrite (@extractLoop_aborts pdf onProgress (numPages pdf) 1 [] failing
             ltac:(lia) Hok Hfail).
  replace (failing - 1 + 1)%nat with failing by lia.
  reflexivity.
Qed.

Lemma convertPdfToWord_aborts_on_failure_witness :
  convertPdfToWord
    (mkPdf [mkPage 100 [mkItem "one" 0 90 None];
            {| getTextContent := None;
               getViewport := fun _ => {| height := 100 |} |};
            mkPage 100 [mkItem "three" 0 90 None]]) true
  = ([ProgressCall {| currentPage := 1; totalPages := 3;
                      stage := extracting |};
      GetPageCall 1;
      ProgressCall {| currentPage := 2; totalPages := 3;
                      stage := extracting |};
      GetPageCall 2],
     None).
Proof.
  apply (@convertPdfToWord_aborts_on_failure
           (mkPdf [mkPage 100 [mkItem "one" 0 90 None];
                   {| getTextContent := None;
                      getViewport := fun _ => {| height := 100 |} |};
                   mkPage 100 [mkItem "three" 0 90 None]]) true 2).
  - cbn. lia.
  - intros j Hj. assert (j = 1%nat) as -> by lia.
    do 2 eexists. split; reflexivity.
  - right. eexists. split; reflexivity.
Defined.

(** * Countdown utilities *)

Lemma getTimeRemaining_fields (targetDate now : Z) :
  let t := getTimeRemaining targetDate now in
  (totalSeconds t
   = days t * 86400 + hours t * 3600 + minutes t * 60 + seconds t)%Z
  /\ (0 <= days t)%Z
  /\ (0 <= hours t < 24)%Z
  /\ (0 <= minutes t < 60)%Z
  /\ (0 <= seconds t < 60)%Z
  /\ (totalSeconds t * 1000 <= Z.abs (targetDate - now)
      < totalSeconds t * 1000 + 1000)%Z.
Proof.
  cbv zeta.
  cbn [getTimeRemaining totalSeconds days hours minutes seconds].
  change (60 * 60 * 24)%Z with 86400%Z. change (60 * 60)%Z with 3600%Z.
  set (T := (Z.abs (targetDate - now) / 1000)%Z).
  assert (HT : (0 <= T)%Z) by (apply Z.div_pos; lia).
  rewrite !Z.rem_mod_nonneg by lia.
  assert (Habs : (T * 1000 <= Z.abs (targetDate - now) < T * 1000 + 1000)%Z).
  { unfold T.
    pose proof (Z.div_mod (Z.abs (targetDate - now)) 1000 ltac:(lia)).
    pose proof (Z.mod_pos_bound (Z.abs (targetDate - now)) 1000 ltac:(lia)).
    lia. }
  repeat split; Z.to_euclidean_division_equations; lia.
Qed.

(** X7. The fields of [getTimeRemaining] are a proper breakdown of the
    distance between the two dates: days, hours below 24, minutes and
    seconds below 60 that add up to [totalSeconds], the whole seconds of
    the distance; [isPast] tells that the target lies before now. *)
Theorem getTimeRemaining_breakdown (targetDate now : Z) :
  let t := getTimeRemaining targetDate now in
  (totalSeconds t
   = days t * 86400 + hours t * 3600 + minutes t * 60 + seconds t)%Z
  /\ (0 <= days t)%Z
  /\ (0 <= hours t < 24)%Z
  /\ (0 <= minutes t < 60)%Z
  /\ (0 <= seconds t < 60)%Z
  /\ (totalSeconds t * 1000 <= Z.abs (targetDate - now)
      < totalSeconds t * 1000 + 1000)%Z
  /\ (isPast t = true <-> (targetDate < now)%Z).
Proof.
  pose proof (getTimeRemaining_fields targetDate now) as H.
  cbv zeta in *. destruct H as (H1 & H2 & H3 & H4 & H5 & H6).
  repeat (split; [assumption|]).
  cbn [getTimeRemaining isPast]. rewrite Z.ltb_lt. lia.
Qed.

(** X8. Before and after the target the countdown shows the same
    figures: exchanging the two dates changes no field but [isPast]. *)
Theorem getTimeRemaining_symmetric (a b : Z) :
  let t := getTimeRemaining a b in
  let t' := getTimeRemaining b a in
  days t = days t' /\ hours t = hours t' /\ minutes t = minutes t'
  /\ seconds t = seconds t' /\ totalSeconds t = totalSeconds t'
  /\ (a <> b -> isPast t = negb (isPast t')).
Proof.
  cbv zeta.
  cbn [getTimeRemaining totalSeconds days hours minutes seconds isPast].
  replace (Z.abs (b - a)) with (Z.abs (a - b)) by lia.
  repeat split. intro Hne.
  destruct (Z.ltb_spec (a - b) 0), (Z.ltb_spec (b - a) 0); cbn;
    try reflexivity; lia.
Qed.

Lemma to_uint_pos_head (n : nat) :
  n <> 0%nat ->
  Nat.to_uint n <> Decimal.Nil
  /\ forall d, Nat.to_uint n <> Decimal.D0 d.
Proof.
  intro Hn.
  assert (Hnorm : Nat.to_uint n = Decimal.unorm (Nat.to_uint n)).
  { rewrite <- DecimalNat.Unsigned.to_of.
    now rewrite DecimalNat.Unsigned.of_to. }
  assert (Hnz : Decimal.nzhead (Nat.to_uint n) <> Decimal.Nil).
  { intro H. apply DecimalFacts.unorm_0 in H. rewrite <- Hnorm in H.
    apply Hn. apply DecimalNat.Unsigned.to_uint_inj. exact H. }
  rewrite (DecimalFacts.unorm_nzhead _ Hnz) in Hnorm.
  split.
  - rewrite Hnorm. exact Hnz.
  - intro d. rewrite Hnorm. apply DecimalFacts.nzhead_nonzero.
Qed.

Lemma ofNat_pos_head (n : nat) :
  n <> 0%nat -> exists c r, ofNat n = c :: r /\ c <> 48%N.
Proof.
  intro Hn. destruct (to_uint_pos_head Hn) as [Hnil Hd0].
  unfold ofNat. destruct (Nat.to_uint n) as [|d|d|d|d|d|d|d|d|d|d];
    try (now elim Hnil); try (now elim (Hd0 d));
    cbn; eexists; eexists; (split; [reflexivity|discriminate]).
Qed.

Lemma ofZ_pos_head (z : Z) :
  (0 < z)%Z -> exists c r, ofZ z = c :: r /\ c <> 48%N.
Proof.
  destruct z as [|p|p]; try lia. intros _. cbn [ofZ].
  apply ofNat_pos_head. lia.
Qed.

Lemma formatTimeRemaining_head (time : TimeRemaining) :
  (0 < days time \/ 0 < hours time
   \/ 0 < minutes time \/ 0 < seconds time)%Z ->
  exists c rest, formatTimeRemaining time = c :: rest /\ c <> 48%N.
Proof.
  intro H. unfold formatTimeRemaining.
  destruct (Z.ltb_spec 0 (days time)) as [Hd|Hd].
  { destruct (ofZ_pos_head Hd) as (c & r & -> & Hc).
    cbn [app]. rewrite join_cons_flat. cbn [app truthy]. eauto. }
  destruct (Z.ltb_spec 0 (hours time)) as [Hh|Hh].
  { destruct (ofZ_pos_head Hh) as (c & r & -> & Hc).
    cbn [app]. rewrite join_cons_flat. cbn [app truthy]. eauto. }
  destruct (Z.ltb_spec 0 (minutes time)) as [Hm|Hm].
  { destruct (ofZ_pos_head Hm) as (c & r & -> & Hc).
    cbn [app]. rewrite join_cons_flat. cbn [app truthy]. eauto. }
  destruct (Z.ltb_spec 0 (seconds time)) as [Hs|Hs].
  { destruct (ofZ_pos_head Hs) as (c & r & -> & Hc).
    cbn [app]. rewrite join_cons_flat. cbn [app truthy]. eauto. }
  lia.
Qed.

Lemma formatTimeRemaining_none_positive (time : TimeRemaining) :
  (days time <= 0 /\ hours time <= 0
   /\ minutes time <= 0 /\ seconds time <= 0)%Z ->
  formatTimeRemaining time = js "0 sekund".
Proof.
  intros (Hd & Hh & Hm & Hs). unfold formatTimeRemaining.
  destruct (Z.ltb_spec 0 (days time)); [lia|].
  destruct (Z.ltb_spec 0 (hours time)); [lia|].
  destruct (Z.ltb_spec 0 (minutes time)); [lia|].
  destruct (Z.ltb_spec 0 (seconds time)); [lia|].
  reflexivity.
Qed.

Lemma formatTimeRemaining_zero_iff (time : TimeRemaining) :
  formatTimeRemaining time = js "0 sekund"
  <-> (days time <= 0 /\ hours time <= 0
       /\ minutes time <= 0 /\ seconds time <= 0)%Z.
Proof.
  split; [|apply formatTimeRemaining_none_positive].
  intro Heq.
  assert (Hcases : (days time <= 0 /\ hours time <= 0
                    /\ minutes time <= 0 /\ seconds time <= 0)%Z
                   \/ (0 < days time \/ 0 < hours time
                       \/ 0 < minutes time \/ 0 < seconds time)%Z) by lia.
  destruct Hcases as [Hz|Hp]; [exact Hz|].
  destruct (formatTimeRemaining_head _ Hp) as (c & rest & Hfmt & Hc).
  rewrite Hfmt in Heq. exfalso. apply Hc. now injection Heq.
Qed.

(** X9. [formatTimeRemaining] never returns the empty string, and it
    returns "0 sekund" exactly when none of days, hours, minutes and
    seconds is positive. *)
Theorem formatTimeRemaining_zero (time : TimeRemaining) :
  formatTimeRemaining time <> []
  /\ (formatTimeRemaining time = js "0 sekund"
      <-> (days time <= 0 /\ hours time <= 0
           /\ minutes time <= 0 /\ seconds time <= 0)%Z).
Proof.
  split; [|apply formatTimeRemaining_zero_iff].
  assert (Hcases : (days time <= 0 /\ hours time <= 0
                    /\ minutes time <= 0 /\ seconds time <= 0)%Z
                   \/ (0 < days time \/ 0 < hours time
                       \/ 0 < minutes time \/ 0 < seconds time)%Z) by lia.
  destruct Hcases as [Hz|Hp].
  - rewrite (formatTimeRemaining_none_positive _ Hz). discriminate.
  - destruct (formatTimeRemaining_head _ Hp) as (c & rest & -> & _).
    discriminate.
Qed.

(** X10. The countdown text is "0 sekund" exactly while now is less than
    one second away from the target, on either side. *)
Theorem formatTimeRemaining_getTimeRemaining_zero (targetDate now : Z) :
  formatTimeRemaining (getTimeRemaining targetDate now) = js "0 sekund"
  <-> (Z.abs (targetDate - now) < 1000)%Z.
Proof.
  rewrite formatTimeRemaining_zero_iff.
  pose proof (getTimeRemaining_fields targetDate now) as H.
  cbv zeta in H.
  destruct H as (Htot & Hd & Hh & Hm & Hs & Habs).
  split; intro H; [lia|].
  assert (Hz : totalSeconds (getTimeRemaining targetDate now) = 0%Z).
  { cbn [getTimeRemaining totalSeconds] in *.
    apply Z.div_small. lia. }
  lia.
Qed.

Section CalendarFacts.
Variable makeDate : Z -> Z -> Z -> Z -> Z -> Z -> Z.
Variable getFullYear : Z -> Z.

(** X11. The year shown for the vacation and the countdown target agree:
    when this year's 28 June is not after this year's 31 August, the
    target is 28 June 0:00 of the year [getVacationYear] returns. *)
Theorem getNextVacationDate_year (now : Z) :
  (makeDate (getFullYear now) 5 28 0 0 0
   <= makeDate (getFullYear now) 7 31 23 59 59)%Z ->
  getNextVacationDate makeDate getFullYear now
  = makeDate (getVacationYear makeDate getFullYear now) 5 28 0 0 0.
Proof.
  intro Horder. unfold getNextVacationDate, getVacationYear. cbv zeta.
  destruct (Z.ltb_spec (makeDate (getFullYear now) 5 28 0 0 0) now),
           (Z.leb_spec now (makeDate (getFullYear now) 7 31 23 59 59)),
           (Z.ltb_spec (makeDate (getFullYear now) 7 31 23 59 59) now);
    try reflexivity; lia.
Qed.

(** X12. [isVacationPeriod] holds exactly when the countdown target has
    been reached and this year's 31 August has not passed; during the
    period the target is this year's 28 June and the year shown is the
    current one. *)
Theorem isVacationPeriod_target_reached (now : Z) :
  (isVacationPeriod makeDate getFullYear now = true
   <-> (getNextVacationDate makeDate getFullYear now <= now
        /\ now <= makeDate (getFullYear now) 7 31 23 59 59)%Z)
  /\ (isVacationPeriod makeDate getFullYear now = true ->
      getNextVacationDate makeDate getFullYear now
      = makeDate (getFullYear now) 5 28 0 0 0
      /\ getVacationYear makeDate getFullYear now = getFullYear now).
Proof.
  unfold isVacationPeriod, getNextVacationDate, getVacationYear. cbv zeta.
  rewrite andb_true_iff, Z.leb_le, Z.leb_le.
  destruct (Z.ltb_spec (makeDate (getFullYear now) 5 28 0 0 0) now),
           (Z.leb_spec now (makeDate (getFullYear now) 7 31 23 59 59)),
           (Z.ltb_spec (makeDate (getFullYear now) 7 31 23 59 59) now);
    repeat split; intros; try reflexivity; lia.
Qed.

(** X13. The year shown for Christmas and the countdown target agree:
    when this year's 24 December is not after this year's 26 December,
    the target is 24 December 0:00 of the year [getChristmasYear]
    returns. *)
Theorem getNextChristmasDate_year (now : Z) :
  (makeDate (getFullYear now) 11 24 0 0 0
   <= makeDate (getFullYear now) 11 26 23 59 59)%Z ->
  getNextChristmasDate makeDate getFullYear now
  = makeDate (getChristmasYear makeDate getFullYear now) 11 24 0 0 0.
Proof.
  intro Horder. unfold getNextChristmasDate, getChristmasYear. cbv zeta.
  destruct (Z.ltb_spec (makeDate (getFullYear now) 11 24 0 0 0) now),
           (Z.leb_spec now (makeDate (getFullYear now) 11 26 23 59 59)),
           (Z.ltb_spec (makeDate (getFullYear now) 11 26 23 59 59) now);
    try reflexivity; lia.
Qed.

(** X14. [isChristmasPeriod] holds exactly when the countdown target has
    been reached and this year's 26 December has not passed; during the
    period the target is this year's 24 December and the year shown is
    the current one. *)
Theorem isChristmasPeriod_target_reached (now : Z) :
  (isChristmasPeriod makeDate getFullYear now = true
   <-> (getNextChristmasDate makeDate getFullYear now <= now
        /\ now <= makeDate (getFullYear now) 11 26 23 59 59)%Z)
  /\ (isChristmasPeriod makeDate getFullYear now = true ->
      getNextChristmasDate makeDate getFullYear now
      = makeDate (getFullYear now) 11 24 0 0 0
      /\ getChristmasYear makeDate getFullYear now = getFullYear now).
Proof.
  unfold isChristmasPeriod, getNextChristmasDate, getChristmasYear. cbv zeta.
  rewrite andb_true_iff, Z.leb_le, Z.leb_le.
  destruct (Z.ltb_spec (makeDate (getFullYear now) 11 24 0 0 0) now),
           (Z.leb_spec now (makeDate (getFullYear now) 11 26 23 59 59)),
           (Z.ltb_spec (makeDate (getFullYear now) 11 26 23 59 59) now);
    repeat split; intros; try reflexivity; lia.
Qed.
End CalendarFacts.

Lemma getNextVacationDate_year_witness :
  getNextVacationDate utcDate utcFullYear (utcDate 2025 8 15 12 0 0)
  = utcDate 2026 5 28 0 0 0.
Proof.
  apply (@getNextVacationDate_year utcDate utcFullYear
           (utcDate 2025 8 15 12 0 0)).
  vm_compute. discriminate.
Defined.

Lemma isVacationPeriod_target_reached_witness :
  getNextVacationDate utcDate utcFullYear (utcDate 2025 6 15 12 0 0)
  = utcDate 2025 5 28 0 0 0
  /\ getVacationYear utcDate utcFullYear (utcDate 2025 6 15 12 0 0)
     = 2025%Z.
Proof.
  apply (proj2 (@isVacationPeriod_target_reached utcDate utcFullYear
                  (utcDate 2025 6 15 12 0 0))).
  reflexivity.
Defined.

Lemma getNextChristmasDate_year_witness :
  getNextChristmasDate utcDate utcFullYear (utcDate 2025 11 28 9 0 0)
  = utcDate 2026 11 24 0 0 0.
Proof.
  apply (@getNextChristmasDate_year utcDate utcFullYear
           (utcDate 2025 11 28 9 0 0)).
  vm_compute. discriminate.
Defined.

Lemma isChristmasPeriod_target_reached_witness :
  getNextChristmasDate utcDate utcFullYear (utcDate 2025 11 25 9 0 0)
  = utcDate 2025 11 24 0 0 0
  /\ getChristmasYear utcDate utcFullYear (utcDate 2025 11 25 9 0 0)
     = 2025%Z.
Proof.
  apply (proj2 (@isChristmasPeriod_target_reached utcDate utcFullYear
                  (utcDate 2025 11 25 9 0 0))).
  reflexivity.
Defined.

Lemma getTimeRemaining_symmetric_witness :
  isPast (getTimeRemaining 5000 9000)
  = negb (isPast (getTimeRemaining 9000 5000)).
Proof.
  apply (proj2 (proj2 (proj2 (proj2 (proj2
           (getTimeRemaining_symmetric 5000 9000)))))).
  discriminate.
Defined.

(** * File names *)

Lemma matchesExtension_dot_inside (c : N) (s t : jsstring) :
  matchesExtension (c :: s ++ 0x2E%N :: t) = false.
Proof.
  cbn [matchesExtension].
  destruct (c =? 46)%N; [|reflexivity]. cbn [andb].
  destruct s as [|d s]; cbn [app].
  - reflexivity.
  - cbn [forallb]. rewrite forallb_app. cbn [forallb].
    unfold isExtensionChar at 2. cbn.
    now rewrite andb_false_r, andb_false_r.
Qed.

Lemma getFileBaseName_strips (base ext : jsstring) :
  ext <> [] ->
  forallb isExtensionChar ext = true ->
  getFileBaseName (base ++ 0x2E%N :: ext) = base.
Proof.
  intros Hne Hext. induction base as [|c base IH]; cbn [app].
  - destruct ext as [|e ext]; [now elim Hne|].
    cbn [getFileBaseName matchesExtension]. cbn [N.eqb Pos.eqb andb].
    now rewrite Hext.
  - cbn [getFileBaseName].
    rewrite (matchesExtension_dot_inside c base ext). now rewrite IH.
Qed.

(** X15. [getFileBaseName] removes the last extension and nothing else:
    for any base, also one that contains dots or slashes, and any
    non-empty extension free of dots and slashes, the base name of
    base.ext is base, so the converter offers base.docx for the
    download. *)
Theorem getFileBaseName_strips_extension (base ext : jsstring) :
  ext <> [] ->
  (forall c, In c ext -> c <> 0x2E%N /\ c <> 0x2F%N) ->
  getFileBaseName (base ++ js "." ++ ext) = base
  /\ downloadName (base ++ js "." ++ ext) = base ++ js ".docx".
Proof.
  intros Hne Hchars.
  assert (Hext : forallb isExtensionChar ext = true).
  { apply forallb_forall. intros c Hc. destruct (Hchars c Hc) as [Hdot Hsl].
    unfold isExtensionChar.
    apply N.eqb_neq in Hdot. apply N.eqb_neq in Hsl.
    now rewrite Hdot, Hsl. }
  unfold downloadName.
  change (js "." ++ ext) with (0x2E%N :: ext).
  now rewrite (getFileBaseName_strips base Hne Hext).
Qed.

Lemma getFileBaseName_strips_extension_witness :
  getFileBaseName (js "report.2024" ++ js "." ++ js "pdf") = js "report.2024"
  /\ downloadName (js "report.2024" ++ js "." ++ js "pdf")
     = js "report.2024" ++ js ".docx".
Proof.
  apply (@getFileBaseName_strips_extension (js "report.2024") (js "pdf")).
  - discriminate.
  - intros c Hc. cbn in Hc.
    destruct Hc as [<-|[<-|[<-|[]]]]; split; discriminate.
Defined.

(** X16. What [getFileBaseName] returns is the name itself or the name
    without one final ".ext" whose ext is non-empty and free of dots and
    slashes; a name without a dot, and a name that ends with a dot, come
    back unchanged. *)
Theorem getFileBaseName_prefix (fileName : jsstring) :
  (getFileBaseName fileName = fileName
   \/ exists ext,
        fileName = getFileBaseName fileName ++ js "." ++ ext
        /\ ext <> []
        /\ forall c, In c ext -> c <> 0x2E%N /\ c <> 0x2F%N)
  /\ ((forall c, In c fileName -> c <> 0x2E%N) ->
      getFileBaseName fileName = fileName)
  /\ getFileBaseName (fileName ++ js ".") = fileName ++ js ".".
Proof.
  assert (Hshape : getFileBaseName fileName = fileName
   \/ exists ext,
        fileName = getFileBaseName fileName ++ js "." ++ ext
        /\ ext <> []
        /\ forall c, In c ext -> c <> 0x2E%N /\ c <> 0x2F%N).
  { induction fileName as [|c s IH]; [now left|].
    cbn [getFileBaseName].
    destruct (matchesExtension (c :: s)) eqn:E.
    - right. cbn [matchesExtension] in E.
      apply andb_true_iff in E. destruct E as [Hc Hs].
      apply N.eqb_eq in Hc. subst c.
      destruct s as [|d s]; [discriminate|].
      exists (d :: s). repeat split; try discriminate.
      + pose proof (proj1 (forallb_forall _ _) Hs c H) as Hx.
        unfold isExtensionChar in Hx.
        apply negb_true_iff, orb_false_iff in Hx.
        now apply N.eqb_neq.
      + pose proof (proj1 (forallb_forall _ _) Hs c H) as Hx.
        unfold isExtensionChar in Hx.
        apply negb_true_iff, orb_false_iff in Hx.
        now apply N.eqb_neq.
    - destruct IH as [IH | (ext & Heq & Hne & Hext)].
      + left. now rewrite IH.
      + right. exists ext. repeat split; try assumption.
        * cbn [app]. now rewrite <- Heq.
        * now apply Hext.
        * now apply Hext. }
  split; [exact Hshape|]. split.
  - intro Hnodot. destruct Hshape as [H|(ext & Heq & _ & _)]; [exact H|].
    exfalso. apply (Hnodot 0x2E%N); [|reflexivity].
    rewrite Heq. apply in_or_app. right. now left.
  - clear Hshape. induction fileName as [|c s IH]; [reflexivity|].
    cbn [app getFileBaseName].
    assert (E : matchesExtension (c :: s ++ js ".") = false).
    { cbn [matchesExtension]. destruct (c =? 46)%N; [|reflexivity].
      cbn [andb]. destruct s as [|d s]; [reflexivity|].
      cbn [app]. change (d :: s ++ js ".") with ((d :: s) ++ js ".").
      rewrite forallb_app. cbn. now rewrite andb_false_r. }
    rewrite E. now rewrite IH.
Qed.

Lemma getFileBaseName_prefix_witness :
  getFileBaseName (js "README") = js "README".
Proof.
  apply (proj1 (proj2 (getFileBaseName_prefix (js "README")))).
  intros c Hc. cbn in Hc.
  repeat (destruct Hc as [<-|Hc]; [discriminate|]). destruct Hc.
Defined.

Lemma js_inj (s t : String.string) : js s = js t -> s = t.
Proof.
  unfold js. intro H.
  rewrite <- (String.string_of_list_ascii_of_string s),
          <- (String.string_of_list_ascii_of_string t).
  f_equal.
  revert H. generalize (String.list_ascii_of_string s) as l.
  generalize (String.list_ascii_of_string t) as l'.
  intros l' l. revert l'.
  induction l as [|a l IH]; intros [|b l'] H; cbn in H;
    try discriminate; [reflexivity|].
  injection H as Hab Hl.
  rewrite <- (ascii_N_embedding a), <- (ascii_N_embedding b), Hab.
  f_equal. now apply IH.
Qed.

Lemma ofNat_inj (n m : nat) : ofNat n = ofNat m -> n = m.
Proof.
  unfold ofNat. intro H. apply js_inj in H.
  apply DecimalNat.Unsigned.to_uint_inj.
  assert (Hs : Some (Nat.to_uint n) = Some (Nat.to_uint m)).
  { rewrite <- !DecimalString.NilEmpty.usu. now rewrite H. }
  now injection Hs.
Qed.

Section ImagesFacts.
Variable Blob : Type.

Lemma zipEntryName_inj (baseName : jsstring) (format : ImageFormat)
    (p q : PdfConverter.ConvertedPage Blob) :
  PdfConverter.zipEntryName baseName format p
  = PdfConverter.zipEntryName baseName format q ->
  PdfConverter.pageNumber p = PdfConverter.pageNumber q.
Proof.
  unfold PdfConverter.zipEntryName. intro H.
  apply app_inv_head in H. apply app_inv_head in H.
  apply app_inv_tail in H. now apply ofNat_inj.
Qed.

Lemma zipGet_zipSet_same (zip : PdfConverter.Zip Blob)
    (name : jsstring) (entry : PdfConverter.ZipEntry Blob) :
  PdfConverter.zipGet (PdfConverter.zipSet zip name entry) name
  = Some entry.
Proof.
  induction zip as [|[n d] zip IH]; cbn.
  - destruct (list_eq_dec N.eq_dec name name); [reflexivity|contradiction].
  - destruct (list_eq_dec N.eq_dec n name) as [->|Hne]; cbn.
    + destruct (list_eq_dec N.eq_dec name name); [reflexivity|contradiction].
    + destruct (list_eq_dec N.eq_dec n name); [contradiction|exact IH].
Qed.

Lemma zipGet_zipSet_other (zip : PdfConverter.Zip Blob)
    (name other : jsstring) (entry : PdfConverter.ZipEntry Blob) :
  other <> name ->
  PdfConverter.zipGet (PdfConverter.zipSet zip name entry) other
  = PdfConverter.zipGet zip other.
Proof.
  intro Hne. induction zip as [|[n d] zip IH]; cbn.
  - destruct (list_eq_dec N.eq_dec name other); [congruence|reflexivity].
  - destruct (list_eq_dec N.eq_dec n name) as [->|Hn]; cbn.
    + destruct (list_eq_dec N.eq_dec name other); [congruence|reflexivity].
    + destruct (list_eq_dec N.eq_dec n other); [reflexivity|exact IH].
Qed.

Lemma zipSet_new_name (zip : PdfConverter.Zip Blob)
    (name : jsstring) (entry : PdfConverter.ZipEntry Blob) :
  ~ In name (map fst zip) ->
  PdfConverter.zipSet zip name entry = zip ++ [(name, entry)].
Proof.
  induction zip as [|[n d] zip IH]; intro Hnew; cbn; [reflexivity|].
  destruct (list_eq_dec N.eq_dec n name) as [->|Hn].
  - exfalso. apply Hnew. now left.
  - f_equal. apply IH. intro H. apply Hnew. now right.
Qed.

(** Names without a slash have no parent folder. *)
Lemma parentFolder_no_slash (name : jsstring) :
  existsb PdfConverter.isSlash name = false ->
  PdfConverter.parentFolder name = [].
Proof.
  intro Hno.
  assert (Hup : PdfConverter.upToLastSlash name = []).
  { destruct name as [|c rest]; [reflexivity|].
    cbn [existsb] in Hno. apply orb_false_iff in Hno.
    cbn [PdfConverter.upToLastSlash]. now rewrite (proj2 Hno). }
  unfold PdfConverter.parentFolder.
  destruct (rev name) as [|c r] eqn:E; [exact Hup|].
  destruct (PdfConverter.isSlash c) eqn:Ec; [|exact Hup].
  exfalso.
  assert (Hin : In c name).
  { apply in_rev. rewrite E. now left. }
  assert (Hex : existsb PdfConverter.isSlash name = true)
    by (apply existsb_exists; eauto).
  congruence.
Qed.

Lemma zipFile_no_slash (zip : PdfConverter.Zip Blob)
    (name : jsstring) (data : Blob) :
  existsb PdfConverter.isSlash name = false ->
  PdfConverter.zipFile zip name data
  = PdfConverter.zipSet zip name (PdfConverter.FileEntry data).
Proof.
  intro Hno. unfold PdfConverter.zipFile.
  destruct (length name); cbn [PdfConverter.fileAdd];
    now rewrite parentFolder_no_slash by exact Hno.
Qed.

Lemma digits_no_slash (d : Decimal.uint) :
  existsb PdfConverter.isSlash (js (DecimalString.NilEmpty.string_of_uint d))
  = false.
Proof.
  induction d; cbn [DecimalString.NilEmpty.string_of_uint]; unfold js in *;
    cbn [String.list_ascii_of_string map existsb]; try rewrite IHd;
    reflexivity.
Qed.

Lemma zipEntryName_no_slash (baseName : jsstring) (format : ImageFormat)
    (page : PdfConverter.ConvertedPage Blob) :
  (forall c, In c baseName -> c <> 0x2F%N) ->
  existsb PdfConverter.isSlash
    (PdfConverter.zipEntryName baseName format page) = false.
Proof.
  intro Hbase. unfold PdfConverter.zipEntryName.
  rewrite !existsb_app. unfold ofNat. rewrite digits_no_slash.
  assert (Hb : existsb PdfConverter.isSlash baseName = false).
  { destruct (existsb PdfConverter.isSlash baseName) eqn:E; [|reflexivity].
    apply existsb_exists in E. destruct E as (c & Hc & Hs).
    apply N.eqb_eq in Hs. now elim (Hbase c Hc). }
  rewrite Hb. now destruct format.
Qed.

Lemma fold_zipSet_entries (name : PdfConverter.ConvertedPage Blob -> jsstring)
    (pages : list (PdfConverter.ConvertedPage Blob)) :
  forall zip,
    NoDup (map fst zip ++ map name pages) ->
    fold_left (fun z page =>
                 PdfConverter.zipSet z (name page)
                   (PdfConverter.FileEntry (PdfConverter.blob page)))
              pages zip
    = zip ++ map (fun page =>
                    (name page,
                     PdfConverter.FileEntry (PdfConverter.blob page)))
                 pages.
Proof.
  induction pages as [|p pages IH]; intros zip Hnd; cbn [fold_left map].
  - now rewrite app_nil_r.
  - cbn [map] in Hnd.
    assert (Hnew : ~ In (name p) (map fst zip)).
    { intro Hin. apply NoDup_remove_2 in Hnd. apply Hnd.
      apply in_or_app. now left. }
    rewrite zipSet_new_name by exact Hnew.
    rewrite IH.
    + now rewrite <- app_assoc.
    + rewrite map_app. cbn [map fst]. now rewrite <- app_assoc.
Qed.

Lemma zipEntryNames_NoDup (baseName : jsstring) (format : ImageFormat)
    (pages : list (PdfConverter.ConvertedPage Blob)) :
  NoDup (map (@PdfConverter.pageNumber Blob) pages) ->
  NoDup (map (PdfConverter.zipEntryName baseName format) pages).
Proof.
  induction pages as [|p pages IH]; intro Hnd; cbn [map]; [constructor|].
  cbn [map] in Hnd. inversion Hnd as [|? ? Hnotin Hrest]; subst.
  constructor; [|now apply IH].
  intro Hin. apply in_map_iff in Hin. destruct Hin as (q & Heq & Hq).
  apply Hnotin. apply zipEntryName_inj in Heq. rewrite <- Heq.
  now apply in_map.
Qed.

Lemma createImagesZip_entries
    (pages : list (PdfConverter.ConvertedPage Blob)) (format : ImageFormat)
    (baseName : jsstring) :
  (forall c, In c baseName -> c <> 0x2F%N) ->
  NoDup (map (@PdfConverter.pageNumber Blob) pages) ->
  PdfConverter.createImagesZip pages format baseName
  = map (fun page =>
           (PdfConverter.zipEntryName baseName format page,
            PdfConverter.FileEntry (PdfConverter.blob page)))
        pages.
Proof.
  intros Hbase Hnd. unfold PdfConverter.createImagesZip.
  assert (Hfold : forall z,
             fold_left (fun z page =>
                          PdfConverter.zipFile z
                            (PdfConverter.zipEntryName baseName format page)
                            (PdfConverter.blob page)) pages z
             = fold_left (fun z page =>
                            PdfConverter.zipSet z
                              (PdfConverter.zipEntryName baseName format page)
                              (PdfConverter.FileEntry
                                 (PdfConverter.blob page))) pages z).
  { clear Hnd. induction pages as [|p pages IH]; intro z; cbn [fold_left];
      [reflexivity|].
    rewrite zipFile_no_slash by (now apply zipEntryName_no_slash).
    apply IH. }
  rewrite Hfold.
  apply (@fold_zipSet_entries
           (PdfConverter.zipEntryName baseName format) pages []).
  cbn [map app]. now apply zipEntryNames_NoDup.
Qed.

(** X17. When the base name has no slash and the pages carry pairwise
    different page numbers, the archive built by [createImagesZip] holds
    exactly one entry per page, a file entry, in page order, under the
    name base-page-N.ext, and every page's image is found under that
    page's name: no page overwrites another and no folder is created. *)
Theorem createImagesZip_one_entry_per_page
    (pages : list (PdfConverter.ConvertedPage Blob)) (format : ImageFormat)
    (baseName : jsstring) :
  (forall c, In c baseName -> c <> 0x2F%N) ->
  NoDup (map (@PdfConverter.pageNumber Blob) pages) ->
  let zip := PdfConverter.createImagesZip pages format baseName in
  zip
  = map (fun page =>
           (baseName ++ js "-page-"
            ++ ofNat (PdfConverter.pageNumber page) ++ js "."
            ++ match format with
               | jpg => js "jpg"
               | png => js "png"
               end,
            PdfConverter.FileEntry (PdfConverter.blob page)))
        pages
  /\ length zip = length pages
  /\ forall page, In page pages ->
       PdfConverter.zipGet zip (PdfConverter.zipEntryName baseName format page)
       = Some (PdfConverter.FileEntry (PdfConverter.blob page)).
Proof.
  intros Hbase Hnd zip.
  pose proof (zipEntryNames_NoDup baseName format pages Hnd) as Hnames.
  pose proof (@createImagesZip_entries pages format baseName Hbase Hnd)
    as Hzip.
  fold zip in Hzip.
  split; [|split].
  - rewrite Hzip. apply map_ext. intro page.
    unfold PdfConverter.zipEntryName. now destruct format.
  - rewrite Hzip. apply length_map.
  - rewrite Hzip. clear Hzip zip Hnd.
    induction pages as [|p pages IH]; intros page Hin; [destruct Hin|].
    cbn [map] in Hnames. inversion Hnames as [|? ? Hnotin Hrest]; subst.
    cbn [map PdfConverter.zipGet].
    destruct Hin as [<-|Hin].
    + destruct (list_eq_dec N.eq_dec _ _); [reflexivity|contradiction].
    + destruct (list_eq_dec N.eq_dec _ _) as [Heq|_]; [|now apply IH].
      exfalso. apply Hnotin. rewrite Heq. now apply in_map.
Qed.
End ImagesFacts.

Lemma createImagesZip_one_entry_per_page_witness :
  PdfConverter.createImagesZip
    [ {| PdfConverter.pageNumber := 1; PdfConverter.dataUrl := js "a";
         PdfConverter.blob := 10%nat; PdfConverter.width := 1;
         PdfConverter.height := 1 |};
      {| PdfConverter.pageNumber := 2; PdfConverter.dataUrl := js "b";
         PdfConverter.blob := 20%nat; PdfConverter.width := 1;
         PdfConverter.height := 1 |} ] jpg (js "scan")
  = [(js "scan-page-1.jpg", PdfConverter.FileEntry 10%nat);
     (js "scan-page-2.jpg", PdfConverter.FileEntry 20%nat)].
Proof.
  apply (@createImagesZip_one_entry_per_page nat
           [ {| PdfConverter.pageNumber := 1; PdfConverter.dataUrl := js "a";
                PdfConverter.blob := 10%nat; PdfConverter.width := 1;
                PdfConverter.height := 1 |};
             {| PdfConverter.pageNumber := 2; PdfConverter.dataUrl := js "b";
                PdfConverter.blob := 20%nat; PdfConverter.width := 1;
                PdfConverter.height := 1 |} ] jpg (js "scan")).
  - intros c Hc. cbn in Hc.
    repeat (destruct Hc as [<-|Hc]; [discriminate|]). destruct Hc.
  - cbn. repeat constructor; cbn; intuition discriminate.
Defined.

(** The archive for a base name with a folder part: JSZip adds the
    folder entry before the first file. *)
Example createImagesZip_with_folder :
  map fst
    (PdfConverter.createImagesZip
       [ {| PdfConverter.pageNumber := 1; PdfConverter.dataUrl := js "a";
            PdfConverter.blob := 10%nat; PdfConverter.width := 1;
            PdfConverter.height := 1 |};
         {| PdfConverter.pageNumber := 2; PdfConverter.dataUrl := js "b";
            PdfConverter.blob := 20%nat; PdfConverter.width := 1;
            PdfConverter.height := 1 |} ] jpg (js "dir/scan"))
  = [js "dir/"; js "dir/scan-page-1.jpg"; js "dir/scan-page-2.jpg"].
Proof. reflexivity. Qed.

(** * Loading the PDF library *)

Lemma freshLoader_inv (window : option PDFJSStatic) :
  loaderInv (freshLoader window).
Proof.
  unfold loaderInv, freshLoader. cbn.
  repeat split; try discriminate; auto.
Qed.

Lemma loaderStep_inv (s : Loader) (a : LoaderAction) :
  loaderInv s -> loaderInv (loaderStep s a).
Proof.
  intro Hinv. destruct a as [| | |newLib]; cbn [loaderStep].
  - unfold loadPdfJs.
    destruct (pdfjsLib s) eqn:El; [exact Hinv|].
    destruct (loadingPromise s) eqn:Ep; [exact Hinv|].
    destruct Hinv as (Hle & Hpend & Hnone & Hlib & Hrej).
    destruct (Hnone Ep) as (Hn & _ & Hp).
    destruct (windowPdfjsLib s) eqn:Ew; unfold loaderInv; cbn;
      rewrite ?Hn; repeat split; intros;
      try discriminate; try congruence; try lia.
  - destruct (scriptPending s) eqn:Ep; [|exact Hinv].
    destruct Hinv as (Hle & Hpend & Hnone & Hlib & Hrej).
    destruct (Hpend Ep) as (Hpr & Hl & Hn).
    unfold onload. destruct (windowPdfjsLib s) eqn:Ew; unfold loaderInv;
      cbn; rewrite Hpr; cbn [settle]; repeat split; intros;
      try discriminate; try congruence; try lia.
  - destruct (scriptPending s) eqn:Ep; [|exact Hinv].
    destruct Hinv as (Hle & Hpend & Hnone & Hlib & Hrej).
    destruct (Hpend Ep) as (Hpr & Hl & Hn).
    unfold onerror, loaderInv.
    cbn; rewrite Hpr; cbn [settle]; repeat split; intros;
      try discriminate; try congruence; try lia.
  - exact Hinv.
Qed.

Lemma loaderRun_inv (actions : list LoaderAction) :
  forall s, loaderInv s -> loaderInv (loaderRun s actions).
Proof.
  unfold loaderRun.
  induction actions as [|a actions IH]; intros s Hs; cbn [fold_left].
  - exact Hs.
  - apply IH. now apply loaderStep_inv.
Qed.

(** X18. Whatever sequence of calls and events follows the evaluation of
    the module, at most one script element is ever appended to the
    document: calls made while a load is in flight, after it succeeded or
    after it failed append nothing. *)
Theorem loadPdfJs_appends_at_most_one_script
    (window : option PDFJSStatic) (actions : list LoaderAction) :
  (scripts (loaderRun (freshLoader window) actions) <= 1)%nat
  /\ (window <> None ->
      scripts (loaderRun (freshLoader window) actions) = 0%nat).
Proof.
  split.
  - apply (loaderRun_inv actions (freshLoader_inv window)).
  - intro Hw. destruct window as [w|]; [clear Hw | now elim Hw].
    assert (H : forall s, windowPdfjsLib s <> None -> scripts s = 0%nat ->
                scriptPending s = false ->
                scripts (loaderRun s actions) = 0%nat).
    { unfold loaderRun.
      induction actions as [|a actions IH]; intros s Hwin Hs Hp;
        cbn [fold_left]; [exact Hs|].
      destruct s as [lib promise win n pending]. cbn in Hwin, Hs, Hp.
      subst n pending.
      destruct a as [| | |newLib]; cbn [loaderStep scriptPending].
      - unfold loadPdfJs. cbn.
        destruct lib as [l|]; cbn; [now apply IH|].
        destruct promise as [p|]; cbn; [now apply IH|].
        destruct win as [w'|]; [|now elim Hwin]. cbn.
        apply IH; cbn; auto; discriminate.
      - now apply IH.
      - now apply IH.
      - apply IH; cbn; auto; discriminate. }
    apply H; cbn; auto; discriminate.
Qed.

Lemma loadPdfJs_appends_at_most_one_script_witness :
  scripts (loaderRun (freshLoader (Some {| workerSrc := [] |}))
             [CallLoadPdfJs; ScriptLoadEvent; CallLoadPdfJs])
  = 0%nat.
Proof.
  apply (proj2 (loadPdfJs_appends_at_most_one_script
                  (Some {| workerSrc := [] |})
                  [CallLoadPdfJs; ScriptLoadEvent; CallLoadPdfJs])).
  discriminate.
Defined.

Lemma loaderStep_loaded (s : Loader) (a : LoaderAction) (lib : PDFJSStatic) :
  loaderInv s -> pdfjsLib s = Some lib ->
  pdfjsLib (loaderStep s a) = Some lib
  /\ scripts (loaderStep s a) = scripts s.
Proof.
  intros (_ & Hpend & _ & _ & _) Hlib.
  assert (Hp : scriptPending s = false).
  { destruct (scriptPending s); [|reflexivity].
    destruct (Hpend eq_refl) as (_ & Hnone & _). congruence. }
  destruct a; cbn [loaderStep]; try rewrite Hp; auto.
  unfold loadPdfJs. rewrite Hlib. auto.
Qed.

(** X19. Once the library has been stored, it stays: after any further
    calls and events every call of [loadPdfJs] returns that same library
    at once, and no script is appended any more. *)
Theorem loadPdfJs_loaded_is_final
    (window : option PDFJSStatic) (before after : list LoaderAction)
    (lib : PDFJSStatic) :
  pdfjsLib (loaderRun (freshLoader window) before) = Some lib ->
  let s := loaderRun (freshLoader window) (before ++ after) in
  loadPdfJs s = (s, Library lib)
  /\ scripts s = scripts (loaderRun (freshLoader window) before).
Proof.
  intros Hlib s.
  assert (H : forall s0, loaderInv s0 -> pdfjsLib s0 = Some lib ->
              pdfjsLib (loaderRun s0 after) = Some lib
              /\ scripts (loaderRun s0 after) = scripts s0).
  { unfold loaderRun.
    induction after as [|a after IH]; intros s0 Hinv H0; cbn [fold_left];
      [auto|].
    destruct (loaderStep_loaded a Hinv H0) as [H1 H2].
    destruct (IH (loaderStep s0 a) (loaderStep_inv a Hinv) H1) as [H3 H4].
    split; [assumption | congruence]. }
  destruct (H _ (loaderRun_inv before (freshLoader_inv window)) Hlib)
    as [Hs Hn].
  unfold s, loaderRun in *. rewrite fold_left_app.
  split; [|exact Hn].
  unfold loadPdfJs. now rewrite Hs.
Qed.

Lemma loadPdfJs_loaded_is_final_witness :
  let s := loaderRun (freshLoader None)
             ([CallLoadPdfJs; WindowDefines {| workerSrc := [] |};
               ScriptLoadEvent]
              ++ [CallLoadPdfJs; ScriptErrorEvent;
                  WindowDefines {| workerSrc := js "other" |};
                  CallLoadPdfJs]) in
  loadPdfJs s = (s, Library {| workerSrc := workerUrl |})
  /\ scripts s = 1%nat.
Proof.
  apply (@loadPdfJs_loaded_is_final None
           [CallLoadPdfJs; WindowDefines {| workerSrc := [] |};
            ScriptLoadEvent]
           [CallLoadPdfJs; ScriptErrorEvent;
            WindowDefines {| workerSrc := js "other" |}; CallLoadPdfJs]
           {| workerSrc := workerUrl |}).
  reflexivity.
Defined.

Lemma loaderStep_rejected (s : Loader) (a : LoaderAction)
    (reason : jsstring) :
  loaderInv s -> loadingPromise s = Some (Rejected reason) ->
  loadingPromise (loaderStep s a) = Some (Rejected reason).
Proof.
  intros (_ & Hpend & _ & _ & Hrej) Hp.
  assert (Hnp : scriptPending s = false).
  { destruct (scriptPending s); [|reflexivity].
    destruct (Hpend eq_refl) as (Hpp & _). congruence. }
  destruct (Hrej _ Hp) as [Hlib _].
  destruct a; cbn [loaderStep]; try rewrite Hnp; auto.
  unfold loadPdfJs. rewrite Hlib, Hp. auto.
Qed.

(** X20. A failed load is final: once the shared promise is rejected, it
    stays rejected with the same reason; every later call of [loadPdfJs]
    hands back that rejected promise and appends no new script - there is
    no retry, even if the library appears on [window] afterwards. *)
Theorem loadPdfJs_failure_is_final
    (window : option PDFJSStatic) (before after : list LoaderAction)
    (reason : jsstring) :
  loadingPromise (loaderRun (freshLoader window) before)
  = Some (Rejected reason) ->
  let s := loaderRun (freshLoader window) (before ++ after) in
  loadPdfJs s = (s, SharedPromise)
  /\ loadingPromise s = Some (Rejected reason)
  /\ pdfjsLib s = None
  /\ scripts s = 1%nat.
Proof.
  intros Hrej s.
  assert (H : forall s0, loaderInv s0 ->
              loadingPromise s0 = Some (Rejected reason) ->
              loadingPromise (loaderRun s0 after) = Some (Rejected reason)).
  { unfold loaderRun.
    induction after as [|a after IH]; intros s0 Hinv H0; cbn [fold_left];
      [exact H0|].
    apply IH; [now apply loaderStep_inv | now apply loaderStep_rejected]. }
  pose proof (loaderRun_inv before (freshLoader_inv window)) as Hinv0.
  assert (Hs : loadingPromise s = Some (Rejected reason)).
  { unfold s, loaderRun. rewrite fold_left_app. now apply H. }
  assert (Hinv : loaderInv s)
    by (unfold s; apply loaderRun_inv, freshLoader_inv).
  destruct Hinv as (_ & _ & _ & _ & Hfinal).
  destruct (Hfinal _ Hs) as [Hlib Hone].
  repeat split; try assumption.
  unfold loadPdfJs. now rewrite Hlib, Hs.
Qed.

Lemma loadPdfJs_failure_is_final_witness :
  let s := loaderRun (freshLoader None)
             ([CallLoadPdfJs; ScriptErrorEvent]
              ++ [WindowDefines {| workerSrc := [] |}; CallLoadPdfJs]) in
  loadPdfJs s = (s, SharedPromise)
  /\ loadingPromise s = Some (Rejected (js "Failed to load pdf.js script"))
  /\ pdfjsLib s = None
  /\ scripts s = 1%nat.
Proof.
  apply (@loadPdfJs_failure_is_final None
           [CallLoadPdfJs; ScriptErrorEvent]
           [WindowDefines {| workerSrc := [] |}; CallLoadPdfJs]
           (js "Failed to load pdf.js script")).
  reflexivity.
Defined.

(** * Converting pages to images *)

Section ConvertFacts.
Variable Blob : Type.
Variable Canvas : Type.
Variable toDataURL : Canvas -> jsstring -> option Q -> jsstring.
Variable dataUrlToBlob : jsstring -> option Blob.

Lemma convertLoop_pages (pdf : PdfConverter.PDFDocumentProxy Canvas)
    (options : PdfConverter.ConversionOptions) (onProgress : bool)
    (remaining : nat) :
  forall i acc calls result,
    PdfConverter.convertLoop toDataURL dataUrlToBlob pdf options onProgress
      i remaining acc = (calls, Some result) ->
    exists pages,
      result = acc ++ pages
      /\ map (@PdfConverter.pageNumber Blob) pages = seq i remaining
      /\ forall k page,
           nth_error pages k = Some page ->
           exists pdfPage,
             PdfConverter.getPage pdf (i + k) = Some pdfPage
             /\ PdfConverter.width page
                = PdfConverter.viewportWidth
                    (PdfConverter.getViewport pdfPage
                       (PdfConverter.scale options))
             /\ PdfConverter.height page
                = PdfConverter.viewportHeight
                    (PdfConverter.getViewport pdfPage
                       (PdfConverter.scale options)).
Proof.
  induction remaining as [|remaining IH]; intros i acc calls result H.
  - cbn in H. injection H as _ <-. exists []. rewrite app_nil_r.
    repeat split. intros [|k] page Hk; discriminate Hk.
  - cbn [PdfConverter.convertLoop] in H. cbv zeta in H.
    destruct (PdfConverter.getPage pdf i) as [pdfPage|] eqn:Epage;
      [|discriminate].
    destruct (PdfConverter.render pdfPage _) as [canvas|]; [|discriminate].
    destruct (dataUrlToBlob _) as [b|]; [|discriminate].
    match type of H with
    | context [PdfConverter.convertLoop _ _ _ _ _ _ _ (acc ++ [?p])] =>
        set (new := p) in *
    end.
    destruct (PdfConverter.convertLoop toDataURL dataUrlToBlob pdf options
                onProgress (S i) remaining (acc ++ [new]))
      as [calls' r] eqn:Erest.
    injection H as _ ->.
    destruct (IH _ _ _ _ Erest) as (pages & Hres & Hnum & Hdim).
    exists (new :: pages). split; [|split].
    + now rewrite Hres, <- app_assoc.
    + cbn [map seq]. now rewrite Hnum.
    + intros [|k] page Hk; cbn in Hk.
      * injection Hk as <-. rewrite Nat.add_0_r.
        exists pdfPage. repeat split. exact Epage.
      * rewrite Nat.add_succ_r. now apply Hdim.
Qed.

(** X21. When [convertPdfToImages] returns, it returns one image per page
    of the document, numbered 1, 2, ..., N in this order, each with the
    width and height of its page's viewport at the requested scale; for
    a base name without a slash, the archive [createImagesZip] builds from
    them has the N entries base-page-1.ext, ..., base-page-N.ext. *)
Theorem convertPdfToImages_pages
    (pdf : PdfConverter.PDFDocumentProxy Canvas)
    (options : PdfConverter.ConversionOptions) (onProgress : bool)
    (calls : list PdfConverter.ConversionProgress)
    (pages : list (PdfConverter.ConvertedPage Blob))
    (baseName : jsstring) :
  PdfConverter.convertPdfToImages toDataURL dataUrlToBlob pdf options
    onProgress = (calls, Some pages) ->
  map (@PdfConverter.pageNumber Blob) pages
  = seq 1 (PdfConverter.numPages pdf)
  /\ (forall k page,
        nth_error pages k = Some page ->
        exists pdfPage,
          PdfConverter.getPage pdf (k + 1) = Some pdfPage
          /\ PdfConverter.width page
             = PdfConverter.viewportWidth
                 (PdfConverter.getViewport pdfPage
                    (PdfConverter.scale options))
          /\ PdfConverter.height page
             = PdfConverter.viewportHeight
                 (PdfConverter.getViewport pdfPage
                    (PdfConverter.scale options)))
  /\ ((forall c, In c baseName -> c <> 0x2F%N) ->
      map fst (PdfConverter.createImagesZip pages
                 (PdfConverter.format options) baseName)
      = map (fun i => baseName ++ js "-page-" ++ ofNat i ++ js "."
                      ++ extensionOf (PdfConverter.format options))
            (seq 1 (PdfConverter.numPages pdf))).
Proof.
  intro H. unfold PdfConverter.convertPdfToImages in H.
  destruct (convertLoop_pages _ _ _ _ _ _ H) as (ps & Hres & Hnum & Hdim).
  cbn [app] in Hres. subst ps.
  split; [exact Hnum|]. split.
  - intros k page Hk. rewrite Nat.add_comm. now apply Hdim.
  - intro Hbase.
    rewrite (@createImagesZip_entries _ pages (PdfConverter.format options)
               baseName Hbase)
      by (rewrite Hnum; apply seq_NoDup).
    rewrite <- Hnum, !map_map. reflexivity.
Qed.
End ConvertFacts.

Lemma convertPdfToImages_pages_witness :
  let page (w : Q) : PdfConverter.PDFPageProxy nat :=
    {| PdfConverter.getViewport :=
         fun scale => {| PdfConverter.viewportWidth := scale * w;
                         PdfConverter.viewportHeight := scale * 2 * w |};
       PdfConverter.render := fun _ => Some 7%nat |} in
  let pdf : PdfConverter.PDFDocumentProxy nat :=
    {| PdfConverter.numPages := 2;
       PdfConverter.getPage :=
         fun n => match n with
                  | 1%nat => Some (page 100)
                  | 2%nat => Some (page 200)
                  | _ => None
                  end |} in
  let options :=
    {| PdfConverter.format := png; PdfConverter.scale := 2;
       PdfConverter.quality := None |} in
  exists calls pages,
    PdfConverter.convertPdfToImages
      (fun _ mime _ => mime) (fun url => Some url) pdf options true
    = (calls, Some pages)
    /\ map (@PdfConverter.pageNumber jsstring) pages = [1; 2]%nat
    /\ map fst (PdfConverter.createImagesZip pages png (js "scan"))
       = [js "scan-page-1.png"; js "scan-page-2.png"].
Proof.
  intros page pdf options.
  do 2 eexists. split; [reflexivity|].
  pose proof (@convertPdfToImages_pages jsstring nat
                (fun _ mime _ => mime) (fun url => Some url)
                pdf options true _ _ (js "scan") eq_refl)
    as (Hnumbers & _ & Hnames).
  split; [exact Hnumbers|].
  apply Hnames. intros c Hc. cbn in Hc.
  repeat (destruct Hc as [<-|Hc]; [discriminate|]). destruct Hc.
Defined.
